(** * EcoDrive Query API: the conversation-routing pipeline

    A shallow embedding of [app/main.py] and of the three services it
    drives ([app/services/llm_service.py], [app/services/rag_service.py],
    [app/services/external_api.py]).

    Python lists are mutable objects: [conversations] maps a conversation
    id to a list object, and that same object is handed to the services,
    which append to it.  The embedding therefore keeps a heap of list
    objects addressed by location, and the conversation store maps ids to
    locations.  The remote capabilities (OpenAI completions, the profile
    and notification endpoints, the UUID source) are given by an
    environment record holding the outcome of each call of one request. *)

From Stdlib Require Import Ascii String List ZArith DecimalString.
From stdpp Require Import gmap strings list.

Open Scope string_scope.
Open Scope list_scope.

(** ** Data model *)

(** A history entry, the dict [{"role": ..., "content": ...}]. *)
Inductive Role := user | assistant.

Record Turn := { role : Role; content : string }.

(** [app/models/schemas.py] *)
Module QueryRequest.
Record t := {
  query : string;
  phone : string;
  conversation_id : option string
}.
End QueryRequest.

Module QueryResponse.
Record t := {
  answer : string;
  intent : option string;
  conversation_id : option string
}.
End QueryResponse.

Module UserData.
Record t := {
  id : Z;
  phone : string;
  name : string;
  empresa : string;
  cb_intent : string
}.

(** [UserData()] *)
Definition default : t :=
  {| id := 0; phone := ""; name := ""; empresa := ""; cb_intent := "" |}.
End UserData.

(** A Python exception caught by [except Exception as e]; [str e] is its
    text. *)
Inductive exn := Exception (msg : string).

Definition str (e : exn) : string := let 'Exception msg := e in msg.

(** [fastapi.HTTPException(status_code=..., detail=...)] *)
Record HTTPException := { status_code : nat; detail : string }.

Definition HTTP_404_NOT_FOUND : nat := 404.
Definition HTTP_500_INTERNAL_SERVER_ERROR : nat := 500.

(** The body returned by [DELETE /conversation/{conversation_id}]. *)
Record DeleteResponse := { message : string }.

(** ** Heap of list objects and the conversation store *)

(** Locations of list objects. *)
Abbreviation loc := nat (only parsing).

Record State := {
  heap : list (list Turn);
  conversations : gmap string loc
}.

(** The module-level [conversations: Dict[str, List[Dict]] = {}]. *)
Definition initial_state : State := {| heap := []; conversations := ∅ |}.

(** The static system prompts of the completion calls.  None of them is
    built from the request: the six prompts of [LLMService] are plain
    string constants, and in [generate_rag_response] the f-string turns
    the doubled braces into single ones, so the two [replace] calls, which
    look for the doubled form, find nothing. *)
Inductive Prompt :=
  | greeting_prompt
  | attendance_prompt
  | praise_prompt
  | other_prompt
  | improve_prompt
  | rag_prompt.

(** Calls observed during a request, in order.  A history argument is
    recorded as the location of the list object that was passed. *)
Inductive Event :=
  | get_user_by_phone_called (phone : string)
  | classify_intent_called (query : string) (history : loc)
  | generate_greeting_called (query user_name : string) (history : loc)
  | improve_query_for_rag_called (query : string) (history : loc)
  | retrieve_context_called (query : string)
  | generate_rag_response_called (query context : string) (history : loc)
  | generate_attendance_response_called (query : string) (history : loc)
  | generate_praise_response_called (query : string) (history : loc)
  | generate_other_response_called (query : string) (history : loc)
  | notify_chatwoot_label_called (conversation_id : string).

(** What the outside world does during one request. *)
Record Env := {
  (** [str(uuid.uuid4())] *)
  uuid4 : exn + string;
  (** the profile POST and the decoding of its body *)
  user_lookup : exn + UserData.t;
  (** the classifier completion followed by [json.loads]: [inl] when
      either raises or the value is not an object, otherwise the string
      stored under ["intent"], if any *)
  classifier_completion : exn + option string;
  (** [chat.completions.create(...).choices[0].message.content], taken
      to be text whenever the call returns *)
  chat_completion : Prompt -> exn + string;
  (** the notification POST with [raise_for_status] *)
  notify_post : exn + unit;
  (** [RAGService.dataset_ids] *)
  dataset_ids : list string
}.

(** ** A state, error and trace monad *)

Definition M (E A : Type) : Type := State -> (E + A) * State * list Event.

Definition ret {E A} (a : A) : M E A := fun st => (inr a, st, []).

Definition raise {E A} (e : E) : M E A := fun st => (inl e, st, []).

Definition bind {E A B} (m : M E A) (k : A -> M E B) : M E B := fun st =>
  match m st with
  | (inl e, st1, t1) => (inl e, st1, t1)
  | (inr a, st1, t1) =>
      match k a st1 with
      | (r, st2, t2) => (r, st2, t1 ++ t2)
      end
  end.

(** [try: m  except Exception as e: h e] *)
Definition try_except {E F A} (m : M E A) (h : E -> M F A) : M F A := fun st =>
  match m st with
  | (inl e, st1, t1) =>
      match h e st1 with
      | (r, st2, t2) => (r, st2, t1 ++ t2)
      end
  | (inr a, st1, t1) => (inr a, st1, t1)
  end.

Notation "x <- m ;; k" := (bind m (fun x => k))
  (at level 100, m at next level, right associativity).
Notation "m ;; k" := (bind m (fun _ => k))
  (at level 100, right associativity).

(** An outside call: its outcome comes from the environment. *)
Definition call {E A} (outcome : E + A) : M E A := fun st => (outcome, st, []).

Definition emit {E} (ev : Event) : M E unit := fun st => (inr tt, st, [ev]).

(** The state after a list display [[...]] has created a new object. *)
Definition allocated (h : list Turn) (st : State) : State :=
  {| heap := heap st ++ [h]; conversations := conversations st |}.

(** The state after [l.append(t)]. *)
Definition appended (l : loc) (t : Turn) (st : State) : State :=
  {| heap := alter (fun h => h ++ [t]) l (heap st);
     conversations := conversations st |}.

(** The state after [conversations[conversation_id] = history]. *)
Definition stored (conversation_id : string) (history : loc) (st : State)
  : State :=
  {| heap := heap st;
     conversations := <[conversation_id := history]> (conversations st) |}.

(** The state after [del conversations[conversation_id]]. *)
Definition removed (conversation_id : string) (st : State) : State :=
  {| heap := heap st;
     conversations := delete conversation_id (conversations st) |}.

Definition contents (st : State) (l : loc) : list Turn :=
  default [] (heap st !! l).

Definition alloc {E} (h : list Turn) : M E loc := fun st =>
  (inr (length (heap st)), allocated h st, []).

Definition list_append {E} (l : loc) (t : Turn) : M E unit := fun st =>
  (inr tt, appended l t st, []).

(** [l or []]: an empty list is falsy, and only then is the display on
    the right evaluated. *)
Definition or_empty {E} (l : loc) : M E loc := fun st =>
  match contents st l with
  | [] => alloc [] st
  | _ :: _ => (inr l, st, [])
  end.

(** [conversations.get(conversation_id, [])]; the default is evaluated
    before the lookup. *)
Definition conversations_get {E} (conversation_id : string) : M E loc :=
  fresh <- alloc [] ;;
  fun st =>
    match conversations st !! conversation_id with
    | Some l => (inr l, st, [])
    | None => (inr fresh, st, [])
    end.

Definition conversations_set {E} (conversation_id : string) (history : loc)
  : M E unit := fun st => (inr tt, stored conversation_id history st, []).

Definition conversations_del {E} (conversation_id : string) : M E unit :=
  fun st => (inr tt, removed conversation_id st, []).

Definition user_turn (query : string) : Turn :=
  {| role := user; content := query |}.

Definition assistant_turn (answer : string) : Turn :=
  {| role := assistant; content := answer |}.

(** ** [app/services/external_api.py] *)

Section Services.

Variable env : Env.

(** Every failure of the lookup is absorbed into the default profile. *)
Definition get_user_by_phone (phone : string) : M exn UserData.t :=
  emit (get_user_by_phone_called phone) ;;
  try_except (call (user_lookup env)) (fun _ => ret UserData.default).

(** Returns [True] if the POST went through and [False] otherwise; it
    never raises. *)
Definition notify_chatwoot_label (conversation_id : string) : M exn bool :=
  emit (notify_chatwoot_label_called conversation_id) ;;
  try_except (call (notify_post env) ;; ret true) (fun _ => ret false).

(** ** [app/services/llm_service.py] *)

Definition greeting_fallback : string :=
  "Hola! 😊 Soy Rodrigo de EcoDrive. ¿Cómo puedo ayudarte?".

Definition attendance_fallback : string :=
  "Déjame conectarte con un asesor humano. Puedes comunicarte al +56 9 5008 0442 😊".

Definition praise_fallback : string :=
  "¡Muchas gracias! 😊 Estamos aquí para ayudarte siempre.".

Definition other_fallback : string :=
  "Disculpa, no puedo ayudarte con eso. ¿Te gustaría que te conecte con un asesor humano? 😊".

(** The shared opening of every [LLMService] method and of
    [generate_rag_response]:
    [messages = history or []; messages.append({"role": "user", "content": query})]. *)
Definition build_messages (query : string) (history : loc) : M exn loc :=
  messages <- or_empty history ;;
  list_append messages (user_turn query) ;;
  ret messages.

Definition classify_intent (query : string) (history : loc) : M exn string :=
  emit (classify_intent_called query history) ;;
  _ <- build_messages query history ;;
  try_except
    (result <- call (classifier_completion env) ;;
     ret (default "outros" result))
    (fun _ => ret "outros").

Definition generate_greeting (query user_name : string) (history : loc)
  : M exn string :=
  emit (generate_greeting_called query user_name history) ;;
  _ <- build_messages query history ;;
  try_except (call (chat_completion env greeting_prompt))
    (fun _ => ret greeting_fallback).

Definition generate_attendance_response (query : string) (history : loc)
  : M exn string :=
  emit (generate_attendance_response_called query history) ;;
  _ <- build_messages query history ;;
  try_except (call (chat_completion env attendance_prompt))
    (fun _ => ret attendance_fallback).

Definition generate_praise_response (query : string) (history : loc)
  : M exn string :=
  emit (generate_praise_response_called query history) ;;
  _ <- build_messages query history ;;
  try_except (call (chat_completion env praise_prompt))
    (fun _ => ret praise_fallback).

Definition generate_other_response (query : string) (history : loc)
  : M exn string :=
  emit (generate_other_response_called query history) ;;
  _ <- build_messages query history ;;
  try_except (call (chat_completion env other_prompt))
    (fun _ => ret other_fallback).

(** Falls back to the original query. *)
Definition improve_query_for_rag (query : string) (history : loc)
  : M exn string :=
  emit (improve_query_for_rag_called query history) ;;
  _ <- build_messages query history ;;
  try_except (call (chat_completion env improve_prompt))
    (fun _ => ret query).

(** ** [app/services/rag_service.py] *)

Definition nl : string := String (Ascii.ascii_of_nat 10) EmptyString.

Definition lines (ls : list string) : string :=
  foldr (fun l acc => l +:+ nl +:+ acc) "" ls.

(** The placeholder context, an f-string over the query and
    [len(self.dataset_ids)]. *)
Definition placeholder_context (query : string) : string :=
  lines [
    "";
    "[NOTA: Esta √© uma implementa√ß√£o placeholder. Integre com seu banco de dados vetorial]";
    "";
    "Query: " +:+ query;
    "";
    "Para implementar a busca real:";
    "1. Use OpenAI embeddings para vetorizar a query";
    "2. Busque no seu vector store (Pinecone, Weaviate, ChromaDB, etc.)";
    "3. Opcionalmente, use Cohere rerank para melhorar os resultados";
    "4. Retorne os documentos relevantes";
    "";
    "Datasets configurados: "
      +:+ NilZero.string_of_uint (Nat.to_uint (length (dataset_ids env)))
  ].

Definition retrieve_context (query : string) : M exn string :=
  emit (retrieve_context_called query) ;;
  ret (placeholder_context query).

Definition rag_fallback : string :=
  "Disculpa, tuve un problema al procesar tu consulta. ¬øPodr√≠as intentarlo nuevamente? üòä".

Definition generate_rag_response (query context : string) (history : loc)
  : M exn string :=
  emit (generate_rag_response_called query context history) ;;
  _ <- build_messages query history ;;
  try_except (call (chat_completion env rag_prompt))
    (fun _ => ret rag_fallback).

(** ** [app/main.py] *)

(** [request.conversation_id or str(uuid.uuid4())]: [None] and the empty
    string are falsy, and only then is the UUID source consulted. *)
Definition conversation_id_or_uuid4 (request : QueryRequest.t)
  : exn + string :=
  match QueryRequest.conversation_id request with
  | Some (String c s) => inr (String c s)
  | Some EmptyString | None => uuid4 env
  end.

(** The body of the [try] block of [process_query].  Every outcome that
    [Env] holds is text, and on text the validation done by
    [QueryResponse(...)] at the end passes; a completion whose content is
    [None], or a value under ["intent"] that is not text, is outside this
    embedding, and with it the 500 that the validation would raise after
    step 4. *)
Definition process_query_body (request : QueryRequest.t)
  : M exn QueryResponse.t :=
  let query := QueryRequest.query request in
  (* Generate or use existing conversation ID *)
  conversation_id <- call (conversation_id_or_uuid4 request) ;;
  (* Get conversation history *)
  history <- conversations_get conversation_id ;;
  (* Step 1: Fetch user data by phone *)
  user_data <- get_user_by_phone (QueryRequest.phone request) ;;
  (* Step 2: Classify intent *)
  intent <- classify_intent query history ;;
  (* Step 3: Route based on intent and generate response *)
  answer <-
    (if bool_decide (intent = "saudacao") then
       generate_greeting query (UserData.name user_data) history
     else if bool_decide (intent = "informacoes") then
       improved_query <- improve_query_for_rag query history ;;
       context <- retrieve_context improved_query ;;
       generate_rag_response query context history
     else if bool_decide (intent ∈ ["atendimento"; "reclamacao"]) then
       answer <- generate_attendance_response query history ;;
       _ <- notify_chatwoot_label conversation_id ;;
       ret answer
     else if bool_decide (intent = "elogio") then
       generate_praise_response query history
     else
       generate_other_response query history) ;;
  (* Step 4: Update conversation history *)
  list_append history (user_turn query) ;;
  list_append history (assistant_turn answer) ;;
  conversations_set conversation_id history ;;
  ret {| QueryResponse.answer := answer;
         QueryResponse.intent := Some intent;
         QueryResponse.conversation_id := Some conversation_id |}.

(** [POST /query]: any exception of the body becomes a 500 whose detail
    is a prefix followed by the exception text. *)
Definition process_query (request : QueryRequest.t)
  : M HTTPException QueryResponse.t :=
  try_except (process_query_body request)
    (fun e =>
       raise {| status_code := HTTP_500_INTERNAL_SERVER_ERROR;
                detail := "Error processing query: " +:+ str e |}).

End Services.

(** [DELETE /conversation/{conversation_id}] *)
Definition delete_conversation (conversation_id : string)
  : M HTTPException DeleteResponse := fun st =>
  match conversations st !! conversation_id with
  | Some _ =>
      (conversations_del conversation_id ;;
       ret {| message := "Conversation deleted successfully" |}) st
  | None =>
      raise {| status_code := HTTP_404_NOT_FOUND;
               detail := "Conversation not found" |} st
  end.

(** A sequence of requests served one after the other on the same
    process, each with the behaviour of the outside world during it. *)
Fixpoint serve (requests : list (Env * QueryRequest.t)) (st : State)
  : list (HTTPException + QueryResponse.t) * State :=
  match requests with
  | [] => ([], st)
  | (env, request) :: rest =>
      let '(r, st1, _) := process_query env request st in
      let '(rs, st2) := serve rest st1 in
      (r :: rs, st2)
  end.

(** The history stored under an id, by value ([[]] when there is none). *)
Definition stored_history (st : State) (conversation_id : string) : list Turn :=
  match conversations st !! conversation_id with
  | Some l => contents st l
  | None => []
  end.


(** ** Derived descriptions used in the statements below *)

(** The state after [build_messages]. *)
Definition built_messages (query : string) (l : loc) (st : State) : State :=
  match contents st l with
  | [] => appended (length (heap st)) (user_turn query) (allocated [] st)
  | _ :: _ => appended l (user_turn query) st
  end.

(** The list object that [conversations.get(conversation_id, [])] yields. *)
Definition history_loc (st : State) (conversation_id : string) : loc :=
  match conversations st !! conversation_id with
  | Some l => l
  | None => length (heap st)
  end.

(** The value [classify_intent] returns. *)
Definition classified (env : Env) : string :=
  match classifier_completion env with
  | inr (Some intent) => intent
  | inr None | inl _ => "outros"
  end.

(** The value a generator returns. *)
Definition completed (env : Env) (p : Prompt) (fallback : string) : string :=
  match chat_completion env p with
  | inr text => text
  | inl _ => fallback
  end.

(** The state after step 4 of [process_query]. *)
Definition finished (query answer conversation_id : string) (l : loc)
  (st : State) : State :=
  stored conversation_id l
    (appended l (assistant_turn answer) (appended l (user_turn query) st)).

(** The profile [get_user_by_phone] returns. *)
Definition profile (env : Env) : UserData.t :=
  match user_lookup env with
  | inr data => data
  | inl _ => UserData.default
  end.

(** The outcome of a request that got its conversation id: the response,
    the state after [builds] calls of [build_messages] on the history and
    step 4, and the calls made. *)
Definition cycle_outcome (env : Env) (request : QueryRequest.t) (st : State)
  (conversation_id answer : string) (builds : nat) (branch : list Event)
  : (HTTPException + QueryResponse.t) * State * list Event :=
  let query := QueryRequest.query request in
  let l := history_loc st conversation_id in
  (inr {| QueryResponse.answer := answer;
          QueryResponse.intent := Some (classified env);
          QueryResponse.conversation_id := Some conversation_id |},
   finished query answer conversation_id l
     (Nat.iter builds (built_messages query l) (allocated [] st)),
   get_user_by_phone_called (QueryRequest.phone request)
     :: classify_intent_called query l :: branch).

Definition prepend {E A} (t : list Event) (o : (E + A) * State * list Event)
  : (E + A) * State * list Event :=
  let '(r, st, t') := o in (r, st, t ++ t').

(** No stored location dangles. *)
Definition well_formed (st : State) : Prop :=
  forall conversation_id l,
    conversations st !! conversation_id = Some l -> l < length (heap st).

(** The response generators, one per branch of the routing. *)
Inductive Generator :=
  | greeting_generator
  | information_generator
  | attendance_generator
  | praise_generator
  | other_generator.

Definition generator_of (ev : Event) : option Generator :=
  match ev with
  | generate_greeting_called _ _ _ => Some greeting_generator
  | generate_rag_response_called _ _ _ => Some information_generator
  | generate_attendance_response_called _ _ => Some attendance_generator
  | generate_praise_response_called _ _ => Some praise_generator
  | generate_other_response_called _ _ => Some other_generator
  | _ => None
  end.

(** The generators invoked in a trace, in order. *)
Definition generators_invoked (t : list Event) : list Generator :=
  omap generator_of t.

(** The conversation ids the notifier was fired with, in order. *)
Definition notifications (t : list Event) : list string :=
  omap (fun ev => match ev with
                  | notify_chatwoot_label_called c => Some c
                  | _ => None
                  end) t.

(** The list objects handed to the services as their [history]
    argument, in order. *)
Definition history_argument (ev : Event) : option loc :=
  match ev with
  | classify_intent_called _ l
  | generate_greeting_called _ _ l
  | improve_query_for_rag_called _ l
  | generate_rag_response_called _ _ l
  | generate_attendance_response_called _ l
  | generate_praise_response_called _ l
  | generate_other_response_called _ l => Some l
  | get_user_by_phone_called _
  | retrieve_context_called _
  | notify_chatwoot_label_called _ => None
  end.

Definition histories_passed (t : list Event) : list loc :=
  omap history_argument t.

(** The completion each generator asks for and the text it substitutes
    when that completion fails. *)
Definition generator_prompt (g : Generator) : Prompt :=
  match g with
  | greeting_generator => greeting_prompt
  | information_generator => rag_prompt
  | attendance_generator => attendance_prompt
  | praise_generator => praise_prompt
  | other_generator => other_prompt
  end.

Definition generator_fallback (g : Generator) : string :=
  match g with
  | greeting_generator => greeting_fallback
  | information_generator => rag_fallback
  | attendance_generator => attendance_fallback
  | praise_generator => praise_fallback
  | other_generator => other_fallback
  end.

(** The five ways through the routing of [process_query]: the answer, the
    number of [build_messages] calls on the history (the classifier's
    included) and the calls made after classification. *)
Inductive routed (env : Env) (query conversation_id : string) (l : loc)
  : string -> nat -> list Event -> Prop :=
  | routed_greeting :
      classified env = "saudacao" ->
      routed env query conversation_id l
        (completed env greeting_prompt greeting_fallback) 2
        [generate_greeting_called query (UserData.name (profile env)) l]
  | routed_information :
      classified env = "informacoes" ->
      routed env query conversation_id l
        (completed env rag_prompt rag_fallback) 3
        [improve_query_for_rag_called query l;
         retrieve_context_called (completed env improve_prompt query);
         generate_rag_response_called query
           (placeholder_context env (completed env improve_prompt query)) l]
  | routed_attendance :
      classified env ∈ ["atendimento"; "reclamacao"] ->
      routed env query conversation_id l
        (completed env attendance_prompt attendance_fallback) 2
        [generate_attendance_response_called query l;
         notify_chatwoot_label_called conversation_id]
  | routed_praise :
      classified env = "elogio" ->
      routed env query conversation_id l
        (completed env praise_prompt praise_fallback) 2
        [generate_praise_response_called query l]
  | routed_other :
      classified env ≠ "saudacao" ->
      classified env ≠ "informacoes" ->
      classified env ∉ ["atendimento"; "reclamacao"] ->
      classified env ≠ "elogio" ->
      routed env query conversation_id l
        (completed env other_prompt other_fallback) 2
        [generate_other_response_called query l].

(** The environment with another outcome of the notification POST. *)
Definition with_notify_post (outcome : exn + unit) (env : Env) : Env :=
  {| uuid4 := uuid4 env;
     user_lookup := user_lookup env;
     classifier_completion := classifier_completion env;
     chat_completion := chat_completion env;
     notify_post := outcome;
     dataset_ids := dataset_ids env |}.

(** [part] occurs inside [whole]. *)
Definition includes (part whole : string) : Prop :=
  exists before after, whole = before +:+ part +:+ after.

(** ** Scenarios *)

Module Scenario.

Definition maria : UserData.t :=
  {| UserData.id := 7; UserData.phone := "+56911112222";
     UserData.name := "Maria"; UserData.empresa := "";
     UserData.cb_intent := "" |}.

(** Every outside call goes through: the classifier says [intent] and
    every completion is [text]. *)
Definition healthy (intent text : string) : Env :=
  {| uuid4 := inr "1b4e28ba-2fa1-4d3b-a3f5-ef19b5a7633b";
     user_lookup := inr maria;
     classifier_completion := inr (Some intent);
     chat_completion := fun _ => inr text;
     notify_post := inr tt;
     dataset_ids := [] |}.

(** The classifier still answers, every other outside call fails. *)
Definition degraded (intent : string) : Env :=
  {| uuid4 := inr "1b4e28ba-2fa1-4d3b-a3f5-ef19b5a7633b";
     user_lookup := inl (Exception "All connection attempts failed");
     classifier_completion := inr (Some intent);
     chat_completion := fun _ => inl (Exception "Connection error.");
     notify_post := inl (Exception "All connection attempts failed");
     dataset_ids := [] |}.

(** The UUID source is unavailable. *)
Definition no_entropy : Env :=
  {| uuid4 := inl (Exception "/dev/urandom (or equivalent) not found");
     user_lookup := inr maria;
     classifier_completion := inr (Some "saudacao");
     chat_completion := fun _ => inr "Hola Maria!";
     notify_post := inr tt;
     dataset_ids := [] |}.

Definition ask (conversation_id : option string) (query : string)
  : QueryRequest.t :=
  {| QueryRequest.query := query;
     QueryRequest.phone := "+56911112222";
     QueryRequest.conversation_id := conversation_id |}.

(** A greeting followed by a compliment in the same conversation. *)
Definition two_requests : list (Env * QueryRequest.t) :=
  [(healthy "saudacao" "Hola Maria!", ask (Some "c1") "Hola, buenas tardes");
   (healthy "elogio" "Gracias a ti!", ask (Some "c1") "Excelente servicio")].

(** The store after a first greeting under ["c1"]. *)
Definition greeted : State :=
  {| heap := [[user_turn "Hola, buenas tardes";
               assistant_turn "Hola Maria!"]];
     conversations := {["c1" := 0]} |}.

End Scenario.

(** ** The store over many operations *)

(** The environment with another outcome of the profile lookup. *)
Definition with_user_lookup (outcome : exn + UserData.t) (env : Env) : Env :=
  {| uuid4 := uuid4 env;
     user_lookup := outcome;
     classifier_completion := classifier_completion env;
     chat_completion := chat_completion env;
     notify_post := notify_post env;
     dataset_ids := dataset_ids env |}.

(** No two conversation ids hold the same list object. *)
Definition unshared (st : State) : Prop :=
  forall c1 c2 l,
    conversations st !! c1 = Some l -> conversations st !! c2 = Some l ->
    c1 = c2.

(** Every stored history opens with a user turn and closes with an
    assistant turn. *)
Definition paired (st : State) : Prop :=
  forall c l,
    conversations st !! c = Some l ->
    exists q middle a,
      heap st !! l = Some (user_turn q :: middle ++ [assistant_turn a]).

Definition consistent (st : State) : Prop := unshared st /\ paired st.

(** What a client can ask of the process: the two routes that touch the
    store. *)
Inductive Operation :=
  | POST_query (env : Env) (request : QueryRequest.t)
  | DELETE_conversation (conversation_id : string).

(** The state an operation leaves, whether it succeeds or raises. *)
Definition perform (st : State) (op : Operation) : State :=
  match op with
  | POST_query env request => (process_query env request st).1.2
  | DELETE_conversation c => (delete_conversation c st).1.2
  end.

Definition perform_all (ops : list Operation) (st : State) : State :=
  foldl perform st ops.

(** The turns a request adds to a history that is already stored and not
    empty. *)
Definition turns_added (env : Env) : nat :=
  if bool_decide (classified env = "informacoes") then 5 else 4.

(** Two more environments: outside services that are down. *)
Module Outage.

(** The classifier call times out, the rest answers. *)
Definition classifier_down : Env :=
  {| uuid4 := inr "1b4e28ba-2fa1-4d3b-a3f5-ef19b5a7633b";
     user_lookup := inr Scenario.maria;
     classifier_completion := inl (Exception "Request timed out.");
     chat_completion := fun _ => inr "No puedo ayudarte con eso";
     notify_post := inr tt;
     dataset_ids := [] |}.

(** Every outside call raises. *)
Definition everything_down : Env :=
  {| uuid4 := inl (Exception "/dev/urandom (or equivalent) not found");
     user_lookup := inl (Exception "All connection attempts failed");
     classifier_completion := inl (Exception "Connection error.");
     chat_completion := fun _ => inl (Exception "Connection error.");
     notify_post := inl (Exception "All connection attempts failed");
     dataset_ids := [] |}.

End Outage.

(** ** The system prompt of [generate_rag_response] *)

(** The text between the quotes of the f-string that [system_prompt] is
    bound to, line by line. *)
Definition system_prompt_literal : string :=
  String.concat nl [
    "<persona>";
    "Voc√™ √© o Rodrigo, assistente da EcoDrive, uma empresa especializada na venda de scooters el√©tricas. Sua miss√£o √© atender os clientes de forma simp√°tica, √∫til e organizada, criando uma experi√™ncia agrad√°vel e eficiente no atendimento via WhatsApp.";
    "";
    "  Seu estilo de comunica√ß√£o deve ser:";
    "  - Informal, simp√°tico e acess√≠vel.";
    "  - Adaptado ao canal (WhatsApp), com uso opcional de emojis para tornar a resposta mais amig√°vel.";
    "  - Claro e organizado, destacando informa√ß√µes com *it√°lico* e **negrito** quando necess√°rio.";
    "</persona>";
    "";
    "<objetivo>";
    "  Gerar a melhor resposta poss√≠vel com base na pergunta do cliente (query) e nas informa√ß√µes adicionais dispon√≠veis (contexto). A resposta ser√° enviada via WhatsApp, e por isso deve ser clara, bem formatada e adaptada ao canal.";
    "</objetivo>";
    "";
    "<entrada>";
    "  Voc√™ receber√° os seguintes dados:";
    "";
    "  [query]";
    "  {{query}}";
    "  [/query]";
    "";
    "  [context]";
    "  {{context}}";
    "  [/context]";
    "</entrada>";
    "";
    "<instrucoes_de_formato>";
    "  1. A resposta ser√° enviada via WhatsApp, portanto:";
    "     - Utilize bullets (`‚Ä¢`) para organizar listas de forma clara e f√°cil de ler.";
    "     - Use emojis apenas se forem √∫teis para o tom da conversa ou para facilitar a leitura.";
    "     - Destaque informa√ß√µes importantes usando **negrito** ou *it√°lico* ‚Äî evite s√≠mbolos de Markdown como `*` ou `#`.";
    "     - Se for necess√°rio enviar links:";
    "       ‚Ä¢ Links de imagens devem ser destacados separadamente, com breve explica√ß√£o.";
    "       ‚Ä¢ Links comuns devem ser posicionados de forma natural no texto e com contexto claro.";
    "     - Evite formata√ß√µes HTML ou c√≥digos t√©cnicos.";
    "";
    "  2. Adapte o n√≠vel de detalhamento de acordo com o contexto recebido. Se houver muitas informa√ß√µes relevantes no contexto, organize-as bem para n√£o sobrecarregar o cliente.";
    "- Priorize envio de imagens quando estiverem no contexto";
    "- Priorize envio de links quando estiverem no contexto";
    "";
    "  3. Seja direto, √∫til e acolhedor. Evite respostas gen√©ricas.";
    "";
    "  4. Quando receber links no contexto mantenha-os de forma organizada";
    "</instrucoes_de_formato>";
    "";
    "<instrucoes_de_idioma>";
    "  - Detecte automaticamente o idioma da mensagem recebida.";
    "  - Responda no mesmo idioma detectado.";
    "  - Se n√£o for poss√≠vel detectar o idioma, responda em espanhol chileno.";
    "</instrucoes_de_idioma>";
    "";
    "<saida_esperada>";
    "  Gere **apenas a resposta final a ser enviada ao cliente**, seguindo todas as instru√ß√µes acima.";
    "</saida_esperada>";
    "";
    "<nao_fazer>";
    "* N√£o diga que n√£o pode enviar imagens diretamente";
    "</nao_fazer>";
    "<nao_fazer>";
    "- n√£o forne√ßa e nem responda com informa√ß√µes que n√£o estejam neste prompt";
    "</nao_fazer>";
    "<nao_fazer>";
    "- n√£o mude a nota√ß√£o monet√°ria, use a moeda que receber em contexto";
    "</nao_fazer>"
  ].

(** The value of an f-string that has no replacement field: a doubled
    brace stands for one brace; a brace on its own would open or close a
    field, which is not covered here. *)
Fixpoint f_string (literal : string) : option string :=
  match literal with
  | EmptyString => Some EmptyString
  | String c rest =>
      if Ascii.eqb c "{"%char || Ascii.eqb c "}"%char then
        match rest with
        | String d rest' =>
            if Ascii.eqb c d then String c <$> f_string rest' else None
        | EmptyString => None
        end
      else String c <$> f_string rest
  end.

(** [s.replace(old, new)]: every occurrence of [old], left to right and
    without overlap; an empty [old] matches before every character and at
    the end. *)
Fixpoint replace_from (old new s : string) (skip : nat) : string :=
  match s with
  | EmptyString => EmptyString
  | String c rest =>
      match skip with
      | S skip' => replace_from old new rest skip'
      | 0 =>
          if String.prefix old s
          then new +:+ replace_from old new rest (String.length old - 1)
          else String c (replace_from old new rest 0)
      end
  end.

Fixpoint insert_after_each (new s : string) : string :=
  match s with
  | EmptyString => EmptyString
  | String c rest => String c (new +:+ insert_after_each new rest)
  end.

Definition replace (old new s : string) : string :=
  match old with
  | EmptyString => new +:+ insert_after_each new s
  | String _ _ => replace_from old new s 0
  end.

(** [system_prompt.replace("{{query}}", query).replace("{{context}}", context)] *)
Definition system_prompt_filled (query context : string) : option string :=
  (fun system_prompt =>
     replace "{{context}}" context (replace "{{query}}" query system_prompt))
    <$> f_string system_prompt_literal.

(** [old] occurs somewhere in [s]. *)
Fixpoint occurs (old s : string) : bool :=
  String.prefix old s
  || match s with
     | EmptyString => false
     | String _ rest => occurs old rest
     end.

(** ** The dataset ids of [RAGService] *)

(** [s.split(sep)] for a separator of one character. *)
Fixpoint split_on (sep : ascii) (s : string) : list string :=
  match s with
  | EmptyString => [EmptyString]
  | String c rest =>
      if Ascii.eqb c sep then EmptyString :: split_on sep rest
      else
        match split_on sep rest with
        | piece :: pieces => String c piece :: pieces
        | [] => [String c EmptyString]
        end
  end.

Definition utf8 (bytes : list nat) : string :=
  string_of_list_ascii (ascii_of_nat <$> bytes).

(** The characters [str.strip()] removes, each as its UTF-8 bytes:
    U+0009 to U+000D, U+001C to U+0020, U+0085, U+00A0, U+1680, U+2000 to
    U+200A, U+2028, U+2029, U+202F, U+205F and U+3000. *)
Definition whitespace : list string :=
  utf8 <$>
    [[9]; [10]; [11]; [12]; [13]; [28]; [29]; [30]; [31]; [32];
     [194; 133]; [194; 160]; [225; 154; 128];
     [226; 128; 128]; [226; 128; 129]; [226; 128; 130]; [226; 128; 131];
     [226; 128; 132]; [226; 128; 133]; [226; 128; 134]; [226; 128; 135];
     [226; 128; 136]; [226; 128; 137]; [226; 128; 138];
     [226; 128; 168]; [226; 128; 169]; [226; 128; 175];
     [226; 129; 159]; [227; 128; 128]].

(** [s] without its prefix [token], if it has that prefix. *)
Fixpoint drop_prefix (token s : string) : option string :=
  match token, s with
  | EmptyString, _ => Some s
  | String a token', String b s' =>
      if Ascii.eqb a b then drop_prefix token' s' else None
  | String _ _, EmptyString => None
  end.

Fixpoint drop_any (tokens : list string) (s : string) : option string :=
  match tokens with
  | [] => None
  | token :: tokens' =>
      match drop_prefix token s with
      | Some rest => Some rest
      | None => drop_any tokens' s
      end
  end.

(** Drop leading tokens for as long as there is one, at most [fuel]
    times. *)
Fixpoint strip_left (tokens : list string) (fuel : nat) (s : string)
  : string :=
  match fuel with
  | 0 => s
  | S fuel' =>
      match drop_any tokens s with
      | Some rest => strip_left tokens fuel' rest
      | None => s
      end
  end.

Definition lstrip (s : string) : string :=
  strip_left whitespace (String.length s) s.

Definition rstrip (s : string) : string :=
  String.rev
    (strip_left (String.rev <$> whitespace) (String.length s) (String.rev s)).

(** [s.strip()] *)
Definition strip (s : string) : string := rstrip (lstrip s).

(** [self.dataset_ids], from [settings.DATASET_IDS]:
    [[ds.strip() for ds in DATASET_IDS.split(",") if ds.strip()]
     if DATASET_IDS else []]. *)
Definition parse_dataset_ids (DATASET_IDS : string) : list string :=
  match DATASET_IDS with
  | EmptyString => []
  | String _ _ =>
      strip <$> filter (fun ds => strip ds <> "") (split_on "," DATASET_IDS)
  end.

(** The character [c] occurs in [s]. *)
Fixpoint has (c : ascii) (s : string) : Prop :=
  match s with
  | EmptyString => False
  | String a rest => a = c \/ has c rest
  end.

Definition starts_with_any (tokens : list string) (s : string) : Prop :=
  exists token rest, token ∈ tokens /\ s = token +:+ rest.

Definition ends_with_any (tokens : list string) (s : string) : Prop :=
  exists token rest, token ∈ tokens /\ s = rest +:+ token.

(** A dataset id as [parse_dataset_ids] yields them. *)
Definition clean (ds : string) : Prop :=
  ds <> ""
  /\ ~ has "," ds
  /\ ~ starts_with_any whitespace ds
  /\ ~ ends_with_any whitespace ds.

(** ** The monad and the primitives, step by step *)

Lemma prepend_nil {E A} (o : (E + A) * State * list Event) : prepend [] o = o.
Proof. by destruct o as [[r st] t]. Qed.

Lemma bind_assoc {E A B C} (m : M E A) (f : A -> M E B) (k : B -> M E C) st :
  bind (bind m f) k st = bind m (fun a => bind (f a) k) st.
Proof.
  unfold bind. destruct (m st) as [[[e|a] s1] t1]; [done|].
  destruct (f a s1) as [[[e|b] s2] t2]; [done|].
  destruct (k b s2) as [[r s3] t3]. by rewrite app_assoc.
Qed.

Lemma bind_emit {E B} ev (k : unit -> M E B) st :
  bind (emit ev) k st = prepend [ev] (k tt st).
Proof. done. Qed.

Lemma bind_ret {E A B} (a : A) (k : A -> M E B) st : bind (ret a) k st = k a st.
Proof. unfold bind, ret. by destruct (k a st) as [[r s] t]. Qed.

Lemma bind_call_inr {E A B} (o : E + A) a (k : A -> M E B) st :
  o = inr a -> bind (call o) k st = k a st.
Proof. intros ->. unfold bind, call. by destruct (k a st) as [[r s] t]. Qed.

Lemma bind_call_inl {E A B} (o : E + A) e (k : A -> M E B) st :
  o = inl e -> bind (call o) k st = (inl e, st, []).
Proof. by intros ->. Qed.

Lemma bind_list_append {E B} l t (k : unit -> M E B) st :
  bind (list_append l t) k st = k tt (appended l t st).
Proof. unfold bind, list_append. by destruct (k tt _) as [[r s] t']. Qed.

Lemma bind_conversations_set {E B} c l (k : unit -> M E B) st :
  bind (conversations_set c l) k st = k tt (stored c l st).
Proof. unfold bind, conversations_set. by destruct (k tt _) as [[r s] t']. Qed.

Lemma bind_conversations_get {E B} c (k : loc -> M E B) st :
  bind (conversations_get c) k st = k (history_loc st c) (allocated [] st).
Proof.
  unfold conversations_get, bind, alloc, history_loc.
  cbn [allocated conversations].
  destruct (conversations st !! c) as [l|];
    by destruct (k _ _) as [[r s] t'].
Qed.

(** A guarded outside call with a constant substitute never raises. *)
Lemma bind_try_call {E B} (o : exn + string) fallback
  (k : string -> M E B) st :
  bind (try_except (call o) (fun _ => ret fallback)) k st
  = k (match o with inr a => a | inl _ => fallback end) st.
Proof.
  unfold bind, try_except, call, ret.
  destruct o as [e|a]; by destruct (k _ st) as [[r s] t'].
Qed.

Lemma bind_build_messages {B} query l (m : M exn B) st :
  bind (build_messages query l) (fun _ => m) st
  = m (built_messages query l st).
Proof.
  unfold build_messages, built_messages. rewrite bind_assoc.
  unfold bind at 1, or_empty.
  destruct (contents st l) as [|t h].
  - unfold alloc. rewrite bind_assoc, bind_list_append, bind_ret.
    by destruct (m _) as [[r s] t'].
  - rewrite bind_assoc, bind_list_append, bind_ret.
    by destruct (m _) as [[r s] t'].
Qed.

(** ** The services, step by step *)

Section ServiceSteps.

Context {B : Type} (env : Env) (k : string -> M exn B) (st : State).

(** The shape shared by the generators and the reformulator. *)
Lemma bind_completion ev query l (o : exn + string) fallback :
  bind (emit ev ;; _ <- build_messages query l ;;
        try_except (call o) (fun _ => ret fallback)) k st
  = prepend [ev]
      (k (match o with inr a => a | inl _ => fallback end)
         (built_messages query l st)).
Proof.
  rewrite bind_assoc, bind_emit. f_equal.
  by rewrite bind_assoc, bind_build_messages, bind_try_call.
Qed.

Lemma bind_classify_intent query l :
  bind (classify_intent env query l) k st
  = prepend [classify_intent_called query l]
      (k (classified env) (built_messages query l st)).
Proof.
  unfold classify_intent. rewrite bind_assoc, bind_emit. f_equal.
  rewrite bind_assoc, bind_build_messages.
  unfold classified, bind, try_except, call, ret.
  destruct (classifier_completion env) as [e|[intent|]];
    by destruct (k _ _) as [[r s] t].
Qed.

Lemma bind_generate_greeting query user_name l :
  bind (generate_greeting env query user_name l) k st
  = prepend [generate_greeting_called query user_name l]
      (k (completed env greeting_prompt greeting_fallback)
         (built_messages query l st)).
Proof. apply bind_completion. Qed.

Lemma bind_generate_attendance_response query l :
  bind (generate_attendance_response env query l) k st
  = prepend [generate_attendance_response_called query l]
      (k (completed env attendance_prompt attendance_fallback)
         (built_messages query l st)).
Proof. apply bind_completion. Qed.

Lemma bind_generate_praise_response query l :
  bind (generate_praise_response env query l) k st
  = prepend [generate_praise_response_called query l]
      (k (completed env praise_prompt praise_fallback)
         (built_messages query l st)).
Proof. apply bind_completion. Qed.

Lemma bind_generate_other_response query l :
  bind (generate_other_response env query l) k st
  = prepend [generate_other_response_called query l]
      (k (completed env other_prompt other_fallback)
         (built_messages query l st)).
Proof. apply bind_completion. Qed.

Lemma bind_improve_query_for_rag query l :
  bind (improve_query_for_rag env query l) k st
  = prepend [improve_query_for_rag_called query l]
      (k (completed env improve_prompt query) (built_messages query l st)).
Proof. apply bind_completion. Qed.

Lemma bind_generate_rag_response query context l :
  bind (generate_rag_response env query context l) k st
  = prepend [generate_rag_response_called query context l]
      (k (completed env rag_prompt rag_fallback) (built_messages query l st)).
Proof. apply bind_completion. Qed.

Lemma bind_retrieve_context query :
  bind (retrieve_context env query) k st
  = prepend [retrieve_context_called query]
      (k (placeholder_context env query) st).
Proof. unfold retrieve_context. by rewrite bind_assoc, bind_emit, bind_ret. Qed.

End ServiceSteps.

Lemma bind_get_user_by_phone {B} env phone (k : UserData.t -> M exn B) st :
  bind (get_user_by_phone env phone) k st
  = prepend [get_user_by_phone_called phone] (k (profile env) st).
Proof.
  unfold get_user_by_phone. rewrite bind_assoc, bind_emit. f_equal.
  unfold profile, bind, try_except, call, ret.
  destruct (user_lookup env) as [e|data]; by destruct (k _ st) as [[r s] t].
Qed.

(** The notifier never raises and leaves the state alone, whatever the
    POST does. *)
Lemma bind_notify_chatwoot_label {B} env c (k : bool -> M exn B) st :
  exists sent,
    bind (notify_chatwoot_label env c) k st
    = prepend [notify_chatwoot_label_called c] (k sent st).
Proof.
  unfold notify_chatwoot_label.
  exists (match notify_post env with inr _ => true | inl _ => false end).
  rewrite bind_assoc, bind_emit. f_equal.
  unfold bind, try_except, call, ret.
  destruct (notify_post env) as [e|[]]; by destruct (k _ st) as [[r s] t].
Qed.

(** ** One request, branch by branch *)

Ltac run_step :=
  cbv beta;
  first
    [ rewrite bind_assoc
    | rewrite bind_ret
    | rewrite bind_list_append
    | rewrite bind_conversations_set
    | rewrite bind_conversations_get
    | rewrite bind_get_user_by_phone
    | rewrite bind_classify_intent
    | rewrite bind_generate_greeting
    | rewrite bind_improve_query_for_rag
    | rewrite bind_retrieve_context
    | rewrite bind_generate_rag_response
    | rewrite bind_generate_attendance_response
    | rewrite bind_generate_praise_response
    | rewrite bind_generate_other_response ].

(** Evaluate the tests of the routing once the intent is a literal. *)
Ltac decide_route :=
  repeat match goal with
  | |- context [bool_decide ?P] =>
      let b := eval vm_compute in (bool_decide P) in
      change (bool_decide P) with b; cbv iota
  end.

Ltac start_cycle Hid :=
  unfold cycle_outcome, process_query, try_except, process_query_body;
  rewrite (bind_call_inr _ _ _ _ Hid);
  do 3 run_step.

Ltac finish_cycle :=
  repeat run_step; unfold ret; cbn [prepend app Nat.iter]; reflexivity.

Section Cycle.

Context (env : Env) (request : QueryRequest.t) (st : State).
Context (conversation_id : string).
Hypothesis Hid : conversation_id_or_uuid4 env request = inr conversation_id.

Let query := QueryRequest.query request.
Let l := history_loc st conversation_id.

Lemma greeting_cycle :
  classified env = "saudacao" ->
  process_query env request st
  = cycle_outcome env request st conversation_id
      (completed env greeting_prompt greeting_fallback) 2
      [generate_greeting_called query (UserData.name (profile env)) l].
Proof. intros H. start_cycle Hid. rewrite H. decide_route. finish_cycle. Qed.

Lemma information_cycle :
  classified env = "informacoes" ->
  process_query env request st
  = cycle_outcome env request st conversation_id
      (completed env rag_prompt rag_fallback) 3
      [improve_query_for_rag_called query l;
       retrieve_context_called (completed env improve_prompt query);
       generate_rag_response_called query
         (placeholder_context env (completed env improve_prompt query)) l].
Proof. intros H. start_cycle Hid. rewrite H. decide_route. finish_cycle. Qed.

Lemma attendance_cycle :
  classified env ∈ ["atendimento"; "reclamacao"] ->
  process_query env request st
  = cycle_outcome env request st conversation_id
      (completed env attendance_prompt attendance_fallback) 2
      [generate_attendance_response_called query l;
       notify_chatwoot_label_called conversation_id].
Proof.
  intros H. start_cycle Hid.
  assert (classified env ≠ "saudacao" /\ classified env ≠ "informacoes")
    as [H1 H2].
  { split; intros E; rewrite E in H; apply list_elem_of_In in H;
      simpl in H; intuition discriminate. }
  rewrite (bool_decide_eq_false_2 _ H1), (bool_decide_eq_false_2 _ H2),
    (bool_decide_eq_true_2 _ H).
  do 3 run_step.
  match goal with
  | |- context [bind (notify_chatwoot_label env ?c) ?k ?s] =>
      destruct (bind_notify_chatwoot_label env c k s) as [sent ->]
  end.
  finish_cycle.
Qed.

Lemma praise_cycle :
  classified env = "elogio" ->
  process_query env request st
  = cycle_outcome env request st conversation_id
      (completed env praise_prompt praise_fallback) 2
      [generate_praise_response_called query l].
Proof. intros H. start_cycle Hid. rewrite H. decide_route. finish_cycle. Qed.

(** Whatever is not one of the five routed labels takes the last branch. *)
Lemma other_cycle :
  classified env ≠ "saudacao" ->
  classified env ≠ "informacoes" ->
  classified env ∉ ["atendimento"; "reclamacao"] ->
  classified env ≠ "elogio" ->
  process_query env request st
  = cycle_outcome env request st conversation_id
      (completed env other_prompt other_fallback) 2
      [generate_other_response_called query l].
Proof.
  intros H1 H2 H3 H4. start_cycle Hid.
  rewrite (bool_decide_eq_false_2 _ H1), (bool_decide_eq_false_2 _ H2),
    (bool_decide_eq_false_2 _ H3), (bool_decide_eq_false_2 _ H4).
  finish_cycle.
Qed.

End Cycle.

(** A request that cannot get a conversation id is answered by a 500
    carrying the text of the exception; nothing else has happened. *)
Lemma process_query_without_id env request st e :
  conversation_id_or_uuid4 env request = inl e ->
  process_query env request st
  = (inl {| status_code := HTTP_500_INTERNAL_SERVER_ERROR;
            detail := "Error processing query: " +:+ str e |}, st, []).
Proof.
  intros H. unfold process_query, try_except, process_query_body.
  by rewrite (bind_call_inl _ _ _ _ H).
Qed.

Lemma process_query_routed env request st conversation_id :
  conversation_id_or_uuid4 env request = inr conversation_id ->
  exists answer builds branch,
    routed env (QueryRequest.query request) conversation_id
      (history_loc st conversation_id) answer builds branch
    /\ process_query env request st
       = cycle_outcome env request st conversation_id answer builds branch.
Proof.
  intros Hid.
  destruct (decide (classified env = "saudacao")) as [H1|H1].
  { eexists _, _, _. split; [by apply routed_greeting|by apply greeting_cycle]. }
  destruct (decide (classified env = "informacoes")) as [H2|H2].
  { eexists _, _, _. split; [by apply routed_information|by apply information_cycle]. }
  destruct (decide (classified env ∈ ["atendimento"; "reclamacao"]))
    as [H3|H3].
  { eexists _, _, _. split; [by apply routed_attendance|by apply attendance_cycle]. }
  destruct (decide (classified env = "elogio")) as [H4|H4].
  { eexists _, _, _. split; [by apply routed_praise|by apply praise_cycle]. }
  eexists _, _, _. split; [by apply routed_other|by apply other_cycle].
Qed.

(** A request succeeds exactly when it gets a conversation id. *)
Lemma process_query_inr env request st response st' trace :
  process_query env request st = (inr response, st', trace) ->
  exists conversation_id answer builds branch,
    conversation_id_or_uuid4 env request = inr conversation_id
    /\ routed env (QueryRequest.query request) conversation_id
         (history_loc st conversation_id) answer builds branch
    /\ (inr response, st', trace)
       = cycle_outcome env request st conversation_id answer builds branch.
Proof.
  intros H.
  destruct (conversation_id_or_uuid4 env request) as [e|c] eqn:Hid.
  - by rewrite (process_query_without_id _ _ _ _ Hid) in H.
  - destruct (process_query_routed env request st c Hid)
      as (a & n & b & Hr & Hc).
    exists c, a, n, b. by rewrite <- H.
Qed.

(** ** The heap along a request *)

Lemma lookup_appended l t st h :
  heap st !! l = Some h -> heap (appended l t st) !! l = Some (h ++ [t]).
Proof. intros H. cbn. by rewrite list_lookup_alter_eq, H. Qed.

Lemma length_heap_appended l t st :
  length (heap (appended l t st)) = length (heap st).
Proof. apply length_alter. Qed.

Lemma built_messages_nonempty query l st h :
  heap st !! l = Some h -> h ≠ [] ->
  built_messages query l st = appended l (user_turn query) st.
Proof.
  unfold built_messages, contents. intros -> Hne. by destruct h.
Qed.

(** On an empty list the services work on a fresh object of their own. *)
Lemma built_messages_empty query l st :
  heap st !! l = Some [] ->
  built_messages query l st
  = appended (length (heap st)) (user_turn query) (allocated [] st).
Proof. unfold built_messages, contents. by intros ->. Qed.

Lemma conversations_built_messages query l st :
  conversations (built_messages query l st) = conversations st.
Proof. unfold built_messages. by destruct (contents st l). Qed.

Lemma length_heap_built_messages query l st :
  length (heap st) <= length (heap (built_messages query l st)).
Proof.
  unfold built_messages. destruct (contents st l);
    rewrite length_heap_appended; cbn; rewrite ?length_app; lia.
Qed.

Lemma conversations_iter_built n query l st :
  conversations (Nat.iter n (built_messages query l) st) = conversations st.
Proof.
  induction n as [|n IH]; [done|].
  cbn. by rewrite conversations_built_messages.
Qed.

Lemma length_heap_iter_built n query l st :
  length (heap st) <= length (heap (Nat.iter n (built_messages query l) st)).
Proof.
  induction n as [|n IH]; [done|].
  cbn. etrans; [apply IH|apply length_heap_built_messages].
Qed.

(** A non-empty history is the very object the services append to. *)
Lemma iter_built_nonempty n query l st h :
  heap st !! l = Some h -> h ≠ [] ->
  heap (Nat.iter n (built_messages query l) st) !! l
  = Some (h ++ replicate n (user_turn query)).
Proof.
  intros H Hne. induction n as [|n IH]; cbn.
  - by rewrite app_nil_r.
  - rewrite (built_messages_nonempty _ _ _ _ IH).
    + rewrite (lookup_appended _ _ _ _ IH).
      by rewrite <- app_assoc, <- replicate_cons_app.
    + by destruct h.
Qed.

(** An empty history is left alone by the services. *)
Lemma iter_built_empty n query l st :
  heap st !! l = Some [] ->
  heap (Nat.iter n (built_messages query l) st) !! l = Some [].
Proof.
  intros H. induction n as [|n IH]; cbn; [done|].
  rewrite (built_messages_empty _ _ _ IH). cbn.
  pose proof (lookup_lt_Some _ _ _ IH) as Hlt.
  rewrite list_lookup_alter_ne by lia.
  by rewrite lookup_app_l.
Qed.

Lemma lookup_finished query answer conversation_id l st h :
  heap st !! l = Some h ->
  heap (finished query answer conversation_id l st) !! l
  = Some (h ++ [user_turn query; assistant_turn answer]).
Proof.
  intros H. unfold finished. cbn [stored heap].
  rewrite (lookup_appended _ _ _ (h ++ [user_turn query])).
  - by rewrite <- app_assoc.
  - by apply lookup_appended.
Qed.

Lemma conversations_finished query answer conversation_id l st :
  conversations (finished query answer conversation_id l st)
  = <[conversation_id := l]> (conversations st).
Proof. done. Qed.

Section CycleState.

Context (st : State) (conversation_id query answer : string) (builds : nat).

Let l := history_loc st conversation_id.
Let st' :=
  finished query answer conversation_id l
    (Nat.iter builds (built_messages query l) (allocated [] st)).

Lemma cycle_state_stored : conversations st' !! conversation_id = Some l.
Proof.
  unfold st'. rewrite conversations_finished. apply lookup_insert_eq.
Qed.

Lemma cycle_state_shared l0 h :
  conversations st !! conversation_id = Some l0 ->
  heap st !! l0 = Some h -> h ≠ [] ->
  l = l0
  /\ heap st' !! l0
     = Some (h ++ replicate builds (user_turn query)
               ++ [user_turn query; assistant_turn answer]).
Proof.
  intros Hc Hh Hne.
  assert (l = l0) as Hl by (unfold l, history_loc; by rewrite Hc).
  split; [done|]. unfold st'. rewrite Hl.
  rewrite (lookup_finished _ _ _ _ _ (h ++ replicate builds (user_turn query))).
  - by rewrite <- app_assoc.
  - apply iter_built_nonempty; [|done].
    cbn. rewrite lookup_app_l; [done|]. by eapply lookup_lt_Some.
Qed.

Lemma cycle_state_stored_empty l0 :
  conversations st !! conversation_id = Some l0 ->
  heap st !! l0 = Some [] ->
  l = l0
  /\ heap st' !! l0 = Some [user_turn query; assistant_turn answer].
Proof.
  intros Hc Hh.
  assert (l = l0) as Hl by (unfold l, history_loc; by rewrite Hc).
  split; [done|]. unfold st'. rewrite Hl.
  rewrite (lookup_finished _ _ _ _ _ []); [done|].
  apply iter_built_empty.
  cbn. rewrite lookup_app_l; [done|]. by eapply lookup_lt_Some.
Qed.

Lemma cycle_state_fresh :
  conversations st !! conversation_id = None ->
  l = length (heap st)
  /\ heap st' !! l = Some [user_turn query; assistant_turn answer].
Proof.
  intros Hc.
  assert (l = length (heap st)) as Hl by (unfold l, history_loc; by rewrite Hc).
  split; [done|]. unfold st'. rewrite Hl.
  rewrite (lookup_finished _ _ _ _ _ []); [done|].
  apply iter_built_empty. cbn. by rewrite list_lookup_middle.
Qed.


End CycleState.


(** ** Properties of the routing *)

(** Read a successful request back into its conversation id and branch. *)
Ltac invert_request H :=
  let c := fresh "c" in
  let a := fresh "a" in
  let n := fresh "n" in
  let b := fresh "b" in
  let Hid := fresh "Hid" in
  let Hr := fresh "Hr" in
  let Heq := fresh "Heq" in
  apply process_query_inr in H as (c & a & n & b & Hid & Hr & Heq);
  unfold cycle_outcome in Heq; injection Heq as -> -> ->.

(** Close a case where the classified label contradicts the branch. *)
Ltac absurd_route :=
  exfalso;
  match goal with
  | H : _ = _ |- _ => discriminate H
  | H : _ ≠ _ |- _ => by apply H
  | H : _ ∈ _ |- _ =>
      apply list_elem_of_In in H; simpl in H; intuition discriminate
  | H : _ ∉ _ |- _ => apply H; apply list_elem_of_In; simpl; tauto
  end.


(** What [classify_intent] returns when the completion is a JSON object
    with a text under ["intent"], and the way back for a label other than
    the substitute. *)
Lemma classified_label env label :
  classifier_completion env = inr (Some label) -> classified env = label.
Proof. unfold classified. by intros ->. Qed.

Lemma classified_from_completion env label :
  classified env = label -> label <> "outros" ->
  classifier_completion env = inr (Some label).
Proof.
  unfold classified.
  destruct (classifier_completion env) as [e|[i|]]; congruence.
Qed.

Ltac by_label Hl Hr :=
  apply classified_label in Hl;
  destruct Hr; try reflexivity;
  match goal with
  | |- context [classified ?env] =>
      generalize dependent (classified env); intros; subst
  | _ : context [classified ?env] |- _ =>
      generalize dependent (classified env); intros; subst
  end;
  try reflexivity; absurd_route.

(** C2. When the classifier completion carries one of the six labels, a
    successful request invokes exactly one generator, the one of that
    label's branch (atendimento and reclamacao share the hand-off
    generator), and no other generator. *)
Theorem route_dispatches_to_one_generator env request st response st' trace :
  process_query env request st = (inr response, st', trace) ->
  (classifier_completion env = inr (Some "saudacao") ->
     generators_invoked trace = [greeting_generator])
  /\ (classifier_completion env = inr (Some "informacoes") ->
        generators_invoked trace = [information_generator])
  /\ (classifier_completion env = inr (Some "atendimento") ->
        generators_invoked trace = [attendance_generator])
  /\ (classifier_completion env = inr (Some "reclamacao") ->
        generators_invoked trace = [attendance_generator])
  /\ (classifier_completion env = inr (Some "elogio") ->
        generators_invoked trace = [praise_generator])
  /\ (classifier_completion env = inr (Some "outros") ->
        generators_invoked trace = [other_generator]).
Proof.
  intros H. invert_request H.
  repeat split; intros Hl; by_label Hl Hr.
Qed.

Lemma route_dispatches_to_one_generator_witness :
  exists response st' trace,
    process_query (Scenario.healthy "reclamacao" "Te contacto con un asesor")
      (Scenario.ask (Some "c1") "Mi scooter llegó roto") initial_state
    = (inr response, st', trace)
    /\ classifier_completion
         (Scenario.healthy "reclamacao" "Te contacto con un asesor")
       = inr (Some "reclamacao")
    /\ generators_invoked trace = [attendance_generator].
Proof.
  destruct (process_query _ _ _) as [[[e|r] s] t] eqn:H;
    [by vm_compute in H|].
  exists r, s, t. split; [reflexivity|]. split; [reflexivity|].
  exact (proj1 (proj2 (proj2 (proj2
    (route_dispatches_to_one_generator _ _ _ _ _ _ H)))) eq_refl).
Defined.

Lemma fallbacks_distinct g g' :
  generator_fallback g = generator_fallback g' -> g = g'.
Proof.
  intros H. apply String.eqb_eq in H.
  destruct g, g'; try reflexivity; by vm_compute in H.
Qed.

(** C5. When the completion of the dispatched generator fails, the
    answer is the substitute text written in that generator, and no other
    generator has the same text. *)
Theorem failed_generation_gives_branch_fallback
  env request st response st' trace g e :
  process_query env request st = (inr response, st', trace) ->
  generators_invoked trace = [g] ->
  chat_completion env (generator_prompt g) = inl e ->
  QueryResponse.answer response = generator_fallback g
  /\ forall g', generator_fallback g' = generator_fallback g -> g' = g.
Proof.
  intros H Hg He. split; [|intros g'; apply fallbacks_distinct].
  invert_request H.
  destruct Hr; injection Hg as <-; cbn in He |- *;
    unfold completed; by rewrite He.
Qed.

Lemma failed_generation_gives_branch_fallback_witness :
  exists response st' trace,
    process_query (Scenario.degraded "informacoes")
      (Scenario.ask None "¿Cuánto cuesta el scooter X2?") initial_state
    = (inr response, st', trace)
    /\ QueryResponse.answer response = rag_fallback.
Proof.
  destruct (process_query _ _ _) as [[[e|r] s] t] eqn:H;
    [by vm_compute in H|].
  exists r, s, t. split; [reflexivity|].
  refine (proj1 (failed_generation_gives_branch_fallback _ _ _ _ _ _
    information_generator (Exception "Connection error.") H _ _)).
  - vm_compute in H. by injection H as _ _ <-.
  - reflexivity.
Defined.

(** The outcome of the notification POST has no bearing on a request. *)
Lemma process_query_with_notify_post outcome env request st :
  process_query (with_notify_post outcome env) request st
  = process_query env request st.
Proof.
  destruct (conversation_id_or_uuid4 env request) as [e|c] eqn:Hid.
  - rewrite (process_query_without_id env _ _ _ Hid).
    exact (process_query_without_id (with_notify_post outcome env) _ _ _ Hid).
  - destruct (process_query_routed env request st c Hid)
      as (a & n & b & Hr & ->).
    destruct Hr as [H|H|H|H|H1 H2 H3 H4].
    + exact (greeting_cycle (with_notify_post outcome env) _ _ _ Hid H).
    + exact (information_cycle (with_notify_post outcome env) _ _ _ Hid H).
    + exact (attendance_cycle (with_notify_post outcome env) _ _ _ Hid H).
    + exact (praise_cycle (with_notify_post outcome env) _ _ _ Hid H).
    + exact (other_cycle (with_notify_post outcome env) _ _ _ Hid H1 H2 H3 H4).
Qed.

(** C7. In a successful request the notifier is fired exactly once, with
    the conversation id of the request, when the classifier completion
    carries atendimento or reclamacao, and not at all otherwise (another
    label, no label, or a failed completion); when fired it is the last
    call of the request, right after the hand-off generator returned the
    answer; and whatever the notification POST does, the request gives
    the same response, state and calls. *)
Theorem notifier_fired_once_for_handoff_only
  env request st response st' trace conversation_id :
  process_query env request st = (inr response, st', trace) ->
  QueryResponse.conversation_id response = Some conversation_id ->
  (classifier_completion env = inr (Some "atendimento")
   \/ classifier_completion env = inr (Some "reclamacao") ->
   notifications trace = [conversation_id]
   /\ exists before l,
        trace = before ++
          [generate_attendance_response_called
             (QueryRequest.query request) l;
           notify_chatwoot_label_called conversation_id])
  /\ (~ (classifier_completion env = inr (Some "atendimento")
         \/ classifier_completion env = inr (Some "reclamacao")) ->
      notifications trace = [])
  /\ conversation_id_or_uuid4 env request = inr conversation_id
  /\ (forall outcome,
        process_query (with_notify_post outcome env) request st
        = (inr response, st', trace)).
Proof.
  intros H Hc. split; [|split; [|split]].
  - intros Hl.
    assert (exists label,
              classified env = label
              /\ label ∈ ["atendimento"; "reclamacao"]) as (label & Hi & Hin).
    { destruct Hl as [Hl|Hl]; apply classified_label in Hl; eexists;
        (split; [exact Hl|]); apply list_elem_of_In; simpl; tauto. }
    invert_request H. cbn in Hc. injection Hc as <-.
    destruct Hr as [Hr|Hr|Hr|Hr|H1 H2 Hr H4];
      try (rewrite Hi in Hr; rewrite Hr in Hin; absurd_route).
    + split; [reflexivity|]. eexists [_; _], _. reflexivity.
    + rewrite Hi in Hr. by destruct Hr.
  - intros Hno. invert_request H. cbn in Hc. injection Hc as <-.
    destruct Hr as [Hr|Hr|Hr|Hr|H1 H2 Hr H4]; try reflexivity.
    exfalso. apply Hno.
    apply list_elem_of_In in Hr. simpl in Hr.
    destruct Hr as [Hr|[Hr|[]]]; [left|right];
      by apply classified_from_completion.
  - invert_request H. cbn in Hc. by injection Hc as <-.
  - intros outcome. by rewrite process_query_with_notify_post.
Qed.

Lemma notifier_fired_once_for_handoff_only_witness :
  exists response st' trace,
    process_query (Scenario.degraded "atendimento")
      (Scenario.ask (Some "c1") "Quiero hablar con una persona")
      initial_state
    = (inr response, st', trace)
    /\ classifier_completion (Scenario.degraded "atendimento")
       = inr (Some "atendimento")
    /\ notifications trace = ["c1"].
Proof.
  destruct (process_query _ _ _) as [[[e|r] s] t] eqn:H;
    [by vm_compute in H|].
  exists r, s, t. split; [reflexivity|]. split; [reflexivity|].
  refine (proj1 (proj1 (notifier_fired_once_for_handoff_only _ _ _ _ _ _
    "c1" H _) _)).
  - vm_compute in H. by injection H as <- _ _.
  - by left.
Defined.



(** ** Deletion *)

(** C3, as worded, fails: on an id that has no stored history the
    deletion does not report a negative result, it raises a 404. *)
Lemma delete_unknown_conversation_raises :
  conversations initial_state !! "never-seen" = None
  /\ delete_conversation "never-seen" initial_state
     = (inl {| status_code := 404; detail := "Conversation not found" |},
        initial_state, [])
  /\ ~ exists body st' trace,
         delete_conversation "never-seen" initial_state
         = (inr body, st', trace).
Proof.
  split; [reflexivity|]. split; [reflexivity|].
  intros (body & st' & trace & H). discriminate H.
Qed.

(** C3, amended. On an id with stored history the deletion returns the
    success message and removes the entry, so that a later
    [conversations.get(id, [])] yields a new empty list; on an id without
    stored history it raises a 404 "Conversation not found" and leaves the
    state as it was. *)
Theorem delete_conversation_outcome conversation_id st :
  (is_Some (conversations st !! conversation_id) ->
   delete_conversation conversation_id st
   = (inr {| message := "Conversation deleted successfully" |},
      removed conversation_id st, [])
   /\ conversations (removed conversation_id st) !! conversation_id = None
   /\ exists l st2,
        conversations_get (E := exn) conversation_id
          (removed conversation_id st)
        = (inr l, st2, [])
        /\ heap st2 !! l = Some [])
  /\ (conversations st !! conversation_id = None ->
      delete_conversation conversation_id st
      = (inl {| status_code := 404; detail := "Conversation not found" |},
         st, [])).
Proof.
  split.
  - intros [l Hl]. split; [|split].
    + unfold delete_conversation. by rewrite Hl.
    + apply lookup_delete_eq.
    + exists (length (heap st)), (allocated [] (removed conversation_id st)).
      unfold conversations_get, bind, alloc.
      cbn [allocated removed conversations heap].
      rewrite lookup_delete_eq. split; [reflexivity|].
      by rewrite list_lookup_middle.
  - intros Hl. unfold delete_conversation. by rewrite Hl.
Qed.

Lemma delete_conversation_outcome_witness :
  delete_conversation "c1"
    {| heap := [[user_turn "Hola"; assistant_turn "Hola!"]];
       conversations := {["c1" := 0]} |}
  = (inr {| message := "Conversation deleted successfully" |},
     removed "c1"
       {| heap := [[user_turn "Hola"; assistant_turn "Hola!"]];
          conversations := {["c1" := 0]} |}, [])
  /\ delete_conversation "c2" initial_state
     = (inl {| status_code := 404; detail := "Conversation not found" |},
        initial_state, []).
Proof.
  split.
  - refine (proj1 (proj1 (delete_conversation_outcome "c1" _) _)).
    exists 0. reflexivity.
  - refine (proj2 (delete_conversation_outcome "c2" initial_state) _).
    reflexivity.
Defined.

(** ** Failure of a request *)

(** C4, as worded, fails: when the UUID source raises, the caller sees the
    text of that exception inside the detail of the 500. *)
Lemma processing_error_carries_exception_text :
  exists e error,
    uuid4 Scenario.no_entropy = inl e
    /\ str e = "/dev/urandom (or equivalent) not found"
    /\ process_query Scenario.no_entropy (Scenario.ask None "Hola")
         initial_state
       = (inl error, initial_state, [])
    /\ includes (str e) (detail error).
Proof.
  eexists _, _. split; [reflexivity|]. split; [reflexivity|].
  split; [reflexivity|].
  by exists "Error processing query: ", "".
Qed.

(** C4, amended. Whenever the body of the request raises, the caller gets
    a 500 whose detail is the fixed prefix followed by the text of the
    exception; no correlation id is attached. *)
Theorem processing_error_detail env request st e st' trace :
  process_query_body env request st = (inl e, st', trace) ->
  process_query env request st
  = (inl {| status_code := 500;
            detail := "Error processing query: " +:+ str e |}, st', trace).
Proof.
  intros H. unfold process_query, try_except. rewrite H.
  unfold raise. by rewrite app_nil_r.
Qed.

Lemma processing_error_detail_witness :
  process_query Scenario.no_entropy (Scenario.ask (Some "") "Hola")
    initial_state
  = (inl {| status_code := 500;
            detail := "Error processing query: "
                      +:+ "/dev/urandom (or equivalent) not found" |},
     initial_state, []).
Proof.
  apply (processing_error_detail Scenario.no_entropy
    (Scenario.ask (Some "") "Hola") initial_state
    (Exception "/dev/urandom (or equivalent) not found")).
  reflexivity.
Defined.

(** ** Conversation ids and stored history *)

Lemma stored_history_lookup st conversation_id l h :
  conversations st !! conversation_id = Some l ->
  heap st !! l = Some h ->
  stored_history st conversation_id = h.
Proof. unfold stored_history, contents. by intros -> ->. Qed.





(** The history is handed to the classifier and to each service of the
    branch, three of them for informacoes and two otherwise. *)
Lemma routed_builds env query conversation_id l phone answer builds branch :
  routed env query conversation_id l answer builds branch ->
  builds
  = (if bool_decide (Some (classified env) = Some "informacoes")
     then 3 else 2)
  /\ histories_passed
       (get_user_by_phone_called phone
          :: classify_intent_called query l :: branch)
     = replicate builds l.
Proof.
  intros Hr. split; [|by destruct Hr].
  destruct Hr as [H|H|H|H|H1 H2 H3 H4]; try (by rewrite H).
  - rewrite bool_decide_eq_false_2; [done|].
    intros [= E]. rewrite E in H. absurd_route.
  - rewrite bool_decide_eq_false_2; [done|]. congruence.
Qed.

(** C10. In a successful request whose conversation id already has a
    non-empty stored history, the stored list object stays the one under
    that id, it is the object handed to the classifier and to every
    service of the branch, and it ends up with one more user turn per such
    service (two, or three for informacoes) followed by the pair of step
    4: four more entries, five for informacoes.  When the id has no stored
    history, the history is a new object and ends up with the pair only. *)
Theorem services_append_to_stored_history
  env request st response st' trace conversation_id :
  process_query env request st = (inr response, st', trace) ->
  QueryResponse.conversation_id response = Some conversation_id ->
  let query := QueryRequest.query request in
  let answer := QueryResponse.answer response in
  let informacoes :=
    bool_decide (QueryResponse.intent response = Some "informacoes") in
  (forall l h,
     conversations st !! conversation_id = Some l ->
     heap st !! l = Some h -> h ≠ [] ->
     conversations st' !! conversation_id = Some l
     /\ histories_passed trace = replicate (if informacoes then 3 else 2) l
     /\ heap st' !! l
        = Some (h ++ replicate (if informacoes then 3 else 2)
                       (user_turn query)
                  ++ [user_turn query; assistant_turn answer])
     /\ length (stored_history st' conversation_id)
        = length (stored_history st conversation_id)
          + (if informacoes then 5 else 4))
  /\ (conversations st !! conversation_id = None ->
      exists l,
        heap st !! l = None
        /\ conversations st' !! conversation_id = Some l
        /\ heap st' !! l = Some [user_turn query; assistant_turn answer]
        /\ length (stored_history st' conversation_id)
           = length (stored_history st conversation_id) + 2).
Proof.
  intros H Hc. invert_request H. cbn in Hc. injection Hc as ->.
  cbn [QueryResponse.answer QueryResponse.intent]. cbv zeta.
  destruct (routed_builds _ _ _ _ (QueryRequest.phone request) _ _ _ Hr)
    as [Hn Hp].
  set (q := QueryRequest.query request) in *.
  pose proof (cycle_state_stored st conversation_id q a n) as Hs.
  cbv zeta in Hs. split.
  - intros l h Hl Hh Hne.
    destruct (cycle_state_shared st conversation_id q a n l h Hl Hh Hne)
      as [El Hf]. cbv zeta in El, Hf. rewrite El in *.
    rewrite <- Hn. do 3 (split; [done|]).
    rewrite (stored_history_lookup _ _ _ _ Hs Hf),
      (stored_history_lookup _ _ _ _ Hl Hh).
    rewrite !length_app, length_replicate. cbn [length].
    rewrite Hn. case_bool_decide; lia.
  - intros Hnone.
    destruct (cycle_state_fresh st conversation_id q a n Hnone) as [El Hf].
    cbv zeta in El, Hf. exists (length (heap st)). rewrite El in *.
    split; [by apply lookup_ge_None_2|]. do 2 (split; [done|]).
    rewrite (stored_history_lookup _ _ _ _ Hs Hf).
    unfold stored_history. by rewrite Hnone.
Qed.

Lemma services_append_to_stored_history_witness :
  exists response st' trace,
    process_query (Scenario.healthy "informacoes" "El X2 cuesta $499.990")
      (Scenario.ask (Some "c1") "Precio del X2?") Scenario.greeted
    = (inr response, st', trace)
    /\ heap st' !! 0
       = Some [user_turn "Hola, buenas tardes"; assistant_turn "Hola Maria!";
               user_turn "Precio del X2?"; user_turn "Precio del X2?";
               user_turn "Precio del X2?"; user_turn "Precio del X2?";
               assistant_turn "El X2 cuesta $499.990"].
Proof.
  pose proof (services_append_to_stored_history
    (Scenario.healthy "informacoes" "El X2 cuesta $499.990")
    (Scenario.ask (Some "c1") "Precio del X2?") Scenario.greeted) as T.
  destruct (process_query _ _ _) as [[[e|r] s] t] eqn:H;
    [by vm_compute in H|].
  exists r, s, t. split; [reflexivity|].
  assert (QueryResponse.conversation_id r = Some "c1"
          /\ QueryResponse.intent r = Some "informacoes"
          /\ QueryResponse.answer r = "El X2 cuesta $499.990")
    as (Hc & Hi & Ha).
  { vm_compute in H. by injection H as <- _ _. }
  destruct (T r s t "c1" eq_refl Hc) as [T1 _].
  destruct (T1 0 [user_turn "Hola, buenas tardes";
                  assistant_turn "Hola Maria!"])
    as (_ & _ & Hh & _); [reflexivity|reflexivity|discriminate|].
  rewrite Hh, Hi, Ha. reflexivity.
Defined.

(** ** Two defects, evaluated *)

(** C1 at two requests.  Both succeed, yet the history stored under the
    id has six turns, not four: the second request finds a non-empty
    stored list, the classifier and the generator each append the user
    turn to that very list, and step 4 appends it a third time. *)
Theorem history_after_two_requests :
  (serve Scenario.two_requests initial_state).1
  = [inr {| QueryResponse.answer := "Hola Maria!";
            QueryResponse.intent := Some "saudacao";
            QueryResponse.conversation_id := Some "c1" |};
     inr {| QueryResponse.answer := "Gracias a ti!";
            QueryResponse.intent := Some "elogio";
            QueryResponse.conversation_id := Some "c1" |}]
  /\ stored_history (serve Scenario.two_requests initial_state).2 "c1"
     = [user_turn "Hola, buenas tardes"; assistant_turn "Hola Maria!";
        user_turn "Excelente servicio"; user_turn "Excelente servicio";
        user_turn "Excelente servicio"; assistant_turn "Gracias a ti!"]
  /\ length (stored_history (serve Scenario.two_requests initial_state).2 "c1")
     <> 2 * 2.
Proof. split; [|split]; by vm_compute. Qed.

(** C6 at the label ["greeting"], which is outside the six.  The request
    takes the last branch, so the generator is the one of outros, but the
    response reports the classifier's string as it came. *)
Theorem out_of_set_label_is_reported :
  exists response st' trace,
    process_query (Scenario.healthy "greeting" "No puedo ayudarte con eso")
      (Scenario.ask (Some "c1") "Hello there") initial_state
    = (inr response, st', trace)
    /\ generators_invoked trace = [other_generator]
    /\ QueryResponse.intent response = Some "greeting"
    /\ QueryResponse.intent response <> Some "outros".
Proof.
  eexists _, _, _. split; [vm_compute; reflexivity|].
  split; [reflexivity|]. split; [reflexivity|]. discriminate.
Qed.

(** ** What a request leaves alone *)

Lemma lookup_appended_ne l l' t st :
  l ≠ l' -> heap (appended l t st) !! l' = heap st !! l'.
Proof. intros H. cbn. by rewrite list_lookup_alter_ne. Qed.

Lemma lookup_allocated_lt h l' st :
  l' < length (heap st) -> heap (allocated h st) !! l' = heap st !! l'.
Proof. intros H. cbn. by rewrite lookup_app_l. Qed.

(** [build_messages] on [l] only writes to [l] or to an object of its
    own making. *)
Lemma lookup_built_messages_ne query l l' st :
  l' ≠ l -> l' < length (heap st) ->
  heap (built_messages query l st) !! l' = heap st !! l'.
Proof.
  intros Hne Hlt. unfold built_messages. destruct (contents st l).
  - rewrite lookup_appended_ne by lia. by apply lookup_allocated_lt.
  - by apply lookup_appended_ne.
Qed.

Lemma lookup_iter_built_ne n query l l' st :
  l' ≠ l -> l' < length (heap st) ->
  heap (Nat.iter n (built_messages query l) st) !! l' = heap st !! l'.
Proof.
  intros Hne Hlt. induction n as [|n IH]; [done|]. cbn.
  rewrite lookup_built_messages_ne; [done..|].
  pose proof (length_heap_iter_built n query l st) as Hle.
  unfold Nat.iter in Hle. lia.
Qed.

Lemma lookup_finished_ne query answer conversation_id l l' st :
  l' ≠ l ->
  heap (finished query answer conversation_id l st) !! l' = heap st !! l'.
Proof.
  intros Hne. unfold finished. cbn [stored heap].
  by rewrite !lookup_appended_ne.
Qed.

Lemma paired_well_formed st : paired st -> well_formed st.
Proof.
  intros Hp c l Hc. destruct (Hp c l Hc) as (q & m & a & Hh).
  by eapply lookup_lt_Some.
Qed.

(** Everything a request that got its id does to the state. *)
Lemma request_effect env request st conversation_id :
  well_formed st ->
  conversation_id_or_uuid4 env request = inr conversation_id ->
  exists response st' trace by_services,
    process_query env request st = (inr response, st', trace)
    /\ QueryResponse.conversation_id response = Some conversation_id
    /\ QueryResponse.intent response = Some (classified env)
    /\ conversations st'
       = <[conversation_id := history_loc st conversation_id]>
           (conversations st)
    /\ (forall l', l' < length (heap st) ->
                   l' ≠ history_loc st conversation_id ->
                   heap st' !! l' = heap st !! l')
    /\ heap st' !! history_loc st conversation_id
       = Some (stored_history st conversation_id ++ by_services
               ++ [user_turn (QueryRequest.query request);
                   assistant_turn (QueryResponse.answer response)])
    /\ (stored_history st conversation_id = [] -> by_services = [])
    /\ (stored_history st conversation_id ≠ [] ->
        length by_services + 2 = turns_added env).
Proof.
  intros Hwf Hid.
  destruct (process_query_routed env request st _ Hid)
    as (a & n & b & Hr & ->).
  destruct (routed_builds _ _ _ _ (QueryRequest.phone request) _ _ _ Hr)
    as [Hn _].
  unfold cycle_outcome.
  set (q := QueryRequest.query request).
  set (hl := history_loc st conversation_id).
  assert (forall l', l' < length (heap st) -> l' ≠ hl ->
            heap (finished q a conversation_id hl
                    (Nat.iter n (built_messages q hl) (allocated [] st)))
              !! l' = heap st !! l') as Hframe.
  { intros l' Hlt Hne.
    rewrite lookup_finished_ne, lookup_iter_built_ne; [|done|cbn|done].
    - by apply lookup_allocated_lt.
    - rewrite length_app. lia. }
  assert (conversations
            (finished q a conversation_id hl
               (Nat.iter n (built_messages q hl) (allocated [] st)))
          = <[conversation_id := hl]> (conversations st)) as Hconv.
  { by rewrite conversations_finished, conversations_iter_built. }
  assert (length (replicate n (user_turn q)) + 2 = turns_added env) as Hlen.
  { rewrite length_replicate, Hn. unfold turns_added.
    repeat case_bool_decide; try lia; congruence. }
  destruct (conversations st !! conversation_id) as [l0|] eqn:Hc.
  - destruct (lookup_lt_is_Some_2 _ _ (Hwf _ _ Hc)) as [h Hh].
    assert (hl = l0) as Hl by (unfold hl, history_loc; by rewrite Hc).
    rewrite (stored_history_lookup _ _ _ _ Hc Hh).
    destruct (decide (h = [])) as [->|Hne].
    + destruct (cycle_state_stored_empty st conversation_id q a n l0 Hc Hh)
        as [_ Hf]. cbv zeta in Hf. fold hl in Hf. rewrite Hl in *.
      eexists _, _, _, []. by do 7 (split; [done|]).
    + destruct (cycle_state_shared st conversation_id q a n l0 h Hc Hh Hne)
        as [_ Hf]. cbv zeta in Hf. fold hl in Hf. rewrite Hl in *.
      eexists _, _, _, (replicate n (user_turn q)).
      by do 7 (split; [done|]).
  - destruct (cycle_state_fresh st conversation_id q a n Hc) as [_ Hf].
    cbv zeta in Hf. fold hl in Hf.
    assert (stored_history st conversation_id = []) as ->.
    { unfold stored_history. by rewrite Hc. }
    eexists _, _, _, []. by do 7 (split; [done|]).
Qed.

(** ** The profile lookup *)

(** X2. A failed profile lookup is the same as the default profile, calls
    included; and whatever the lookup yields, the response and the state
    after the request are the same. *)
Theorem profile_lookup_never_decides env request st :
  (forall e,
     process_query (with_user_lookup (inl e) env) request st
     = process_query (with_user_lookup (inr UserData.default) env) request st)
  /\ (forall o1 o2,
        (process_query (with_user_lookup o1 env) request st).1
        = (process_query (with_user_lookup o2 env) request st).1).
Proof.
  assert (forall o1 o2,
            exists r s t1 t2,
              process_query (with_user_lookup o1 env) request st = (r, s, t1)
              /\ process_query (with_user_lookup o2 env) request st = (r, s, t2)
              /\ (UserData.name (profile (with_user_lookup o1 env))
                  = UserData.name (profile (with_user_lookup o2 env)) ->
                  t1 = t2)) as Hsame.
  { intros o1 o2.
    destruct (conversation_id_or_uuid4 env request) as [e|c] eqn:Hid.
    - eexists _, _, _, _. split; [|split].
      + exact (process_query_without_id (with_user_lookup o1 env) _ _ _ Hid).
      + exact (process_query_without_id (with_user_lookup o2 env) _ _ _ Hid).
      + done.
    - destruct (process_query_routed (with_user_lookup o1 env) request st c Hid)
        as (a & n & b & Hr & H1).
      rewrite H1. unfold cycle_outcome.
      destruct Hr as [H|H|H|H|Ha Hb Hc Hd]; eexists _, _, _, _;
        (split; [reflexivity|]).
      + split; [exact (greeting_cycle (with_user_lookup o2 env) _ _ _ Hid H)|].
        by intros ->.
      + split;
          [exact (information_cycle (with_user_lookup o2 env) _ _ _ Hid H)|].
        done.
      + split;
          [exact (attendance_cycle (with_user_lookup o2 env) _ _ _ Hid H)|].
        done.
      + split; [exact (praise_cycle (with_user_lookup o2 env) _ _ _ Hid H)|].
        done.
      + split;
          [exact (other_cycle (with_user_lookup o2 env) _ _ _ Hid Ha Hb Hc Hd)|].
        done. }
  split.
  - intros e.
    destruct (Hsame (inl e) (inr UserData.default))
      as (r & s & t1 & t2 & -> & -> & Ht).
    by rewrite Ht.
  - intros o1 o2.
    by destruct (Hsame o1 o2) as (r & s & t1 & t2 & -> & -> & _).
Qed.

(** ** The classifier's fallback and the last branch *)

(** X3. When the classifier completion raises, is not a JSON object, or
    has no ["intent"] key, a successful request reports outros, invokes
    the outros generator and nothing else, and does not notify. *)
Theorem classifier_failure_routes_to_outros
  env request st response st' trace :
  process_query env request st = (inr response, st', trace) ->
  (exists e, classifier_completion env = inl e)
  \/ classifier_completion env = inr None ->
  QueryResponse.intent response = Some "outros"
  /\ generators_invoked trace = [other_generator]
  /\ notifications trace = [].
Proof.
  intros H Hfail. invert_request H.
  assert (classified env = "outros") as Hi.
  { unfold classified. by destruct Hfail as [[e ->]| ->]. }
  cbn [QueryResponse.intent]. rewrite Hi. split; [done|].
  destruct Hr as [Hr|Hr|Hr|Hr|H1 H2 H3 H4];
    try (rewrite Hi in Hr; absurd_route).
  done.
Qed.

Lemma classifier_failure_routes_to_outros_witness :
  exists response st' trace,
    process_query Outage.classifier_down
      (Scenario.ask None "asdf") initial_state
    = (inr response, st', trace)
    /\ QueryResponse.intent response = Some "outros".
Proof.
  destruct (process_query _ _ _) as [[[e|r] s] t] eqn:H;
    [by vm_compute in H|].
  exists r, s, t. split; [reflexivity|].
  refine (proj1 (classifier_failure_routes_to_outros _ _ _ _ _ _ H _)).
  left. by eexists.
Defined.

(** X4. With a usable conversation id, when both the classifier
    completion and the completion of the outros generator raise, the
    caller gets the outros fallback text under the intent outros,
    whatever the other outside calls do. *)
Theorem answer_under_outage env request st s e1 e2 :
  QueryRequest.conversation_id request = Some s -> s ≠ "" ->
  classifier_completion env = inl e1 ->
  chat_completion env other_prompt = inl e2 ->
  exists st' trace,
    process_query env request st
    = (inr {| QueryResponse.answer := other_fallback;
              QueryResponse.intent := Some "outros";
              QueryResponse.conversation_id := Some s |}, st', trace).
Proof.
  intros Hs Hne Hc Hg.
  assert (conversation_id_or_uuid4 env request = inr s) as Hid.
  { unfold conversation_id_or_uuid4. rewrite Hs. by destruct s. }
  assert (classified env = "outros") as Hi by (unfold classified; by rewrite Hc).
  rewrite (other_cycle env request st s Hid); try (by rewrite Hi).
  - unfold cycle_outcome, completed. rewrite Hi, Hg. eauto.
  - rewrite Hi. intros Hin. absurd_route.
Qed.

Lemma answer_under_outage_witness :
  exists st' trace,
    process_query Outage.everything_down
      (Scenario.ask (Some "c1") "Hola") initial_state
    = (inr {| QueryResponse.answer := other_fallback;
              QueryResponse.intent := Some "outros";
              QueryResponse.conversation_id := Some "c1" |}, st', trace).
Proof.
  apply (answer_under_outage _ _ _ "c1" (Exception "Connection error.")
           (Exception "Connection error.")); try reflexivity.
  discriminate.
Defined.

(** X5. Routing is by exact string equality.  A label that is none of
    saudacao, informacoes, atendimento, reclamacao, elogio (a misspelling,
    another letter case, surrounding blanks, a translation) takes the last
    branch: the outros generator alone is invoked, nobody is notified, the
    answer is that generator's, and the response carries the label as the
    classifier gave it. *)
Theorem unlisted_label_takes_last_branch
  env request st response st' trace label :
  process_query env request st = (inr response, st', trace) ->
  classifier_completion env = inr (Some label) ->
  label ∉ ["saudacao"; "informacoes"; "atendimento"; "reclamacao"; "elogio"] ->
  QueryResponse.intent response = Some label
  /\ generators_invoked trace = [other_generator]
  /\ notifications trace = []
  /\ QueryResponse.answer response
     = match chat_completion env other_prompt with
       | inr text => text
       | inl _ => other_fallback
       end.
Proof.
  intros H Hl Hnot. invert_request H.
  assert (classified env = label) as Hi by (unfold classified; by rewrite Hl).
  cbn [QueryResponse.intent QueryResponse.answer]. rewrite Hi.
  split; [done|].
  destruct Hr as [Hr|Hr|Hr|Hr|H1 H2 H3 H4]; [..|done];
    exfalso; apply Hnot; rewrite Hi in Hr; subst label.
  - apply list_elem_of_In; simpl; tauto.
  - apply list_elem_of_In; simpl; tauto.
  - apply list_elem_of_In in Hr. apply list_elem_of_In.
    simpl in *. tauto.
  - apply list_elem_of_In; simpl; tauto.
Qed.

Lemma unlisted_label_takes_last_branch_witness :
  exists response st' trace,
    process_query (Scenario.healthy "Saudacao" "No puedo ayudarte con eso")
      (Scenario.ask (Some "c1") "Hola") initial_state
    = (inr response, st', trace)
    /\ QueryResponse.intent response = Some "Saudacao"
    /\ generators_invoked trace = [other_generator].
Proof.
  destruct (process_query _ _ _) as [[[e|r] s] t] eqn:H;
    [by vm_compute in H|].
  exists r, s, t. split; [reflexivity|].
  destruct (unlisted_label_takes_last_branch _ _ _ _ _ _ "Saudacao" H)
    as (Hi & Hg & _); [reflexivity| |done].
  intros Hin. apply list_elem_of_In in Hin. simpl in Hin.
  intuition discriminate.
Defined.

(** ** The store across conversations *)

Lemma stored_elsewhere st c c' l :
  consistent st -> conversations st !! c' = Some l -> c' ≠ c ->
  l < length (heap st) /\ l ≠ history_loc st c.
Proof.
  intros [Hu Hp] Hc' Hne.
  pose proof (paired_well_formed st Hp _ _ Hc') as Hlt. split; [done|].
  unfold history_loc. destruct (conversations st !! c) as [l0|] eqn:Hc.
  - intros ->. by apply Hne, (Hu c' c l0).
  - lia.
Qed.

Lemma consistent_initial : consistent initial_state.
Proof.
  split; intros c; intros; unfold initial_state in *;
    cbn [conversations] in *; by rewrite lookup_empty in *.
Qed.

Lemma consistent_greeted : consistent Scenario.greeted.
Proof.
  unfold Scenario.greeted. split.
  - intros c1 c2 l. cbn [conversations].
    by intros [<- <-]%lookup_singleton_Some [<- _]%lookup_singleton_Some.
  - intros c l. cbn [conversations heap].
    intros [<- <-]%lookup_singleton_Some.
    by exists "Hola, buenas tardes", [], "Hola Maria!".
Qed.

(** X6. A successful request leaves every other conversation as it was:
    on a state where no two ids share a list and every stored history is
    paired, the history stored under any id other than the one the
    response reports is unchanged. *)
Theorem request_leaves_other_conversations
  env request st response st' trace reported other :
  consistent st ->
  process_query env request st = (inr response, st', trace) ->
  QueryResponse.conversation_id response = Some reported ->
  other ≠ reported ->
  conversations st' !! other = conversations st !! other
  /\ stored_history st' other = stored_history st other.
Proof.
  intros Hcons H Hrep Hne.
  pose proof (paired_well_formed st (proj2 Hcons)) as Hwf.
  destruct (conversation_id_or_uuid4 env request) as [e|c] eqn:Hid.
  { by rewrite (process_query_without_id _ _ _ _ Hid) in H. }
  destruct (request_effect env request st c Hwf Hid)
    as (r & s & t & ext & H' & Hc & _ & Hconv & Hframe & _).
  rewrite H in H'. injection H' as <- <- <-.
  rewrite Hrep in Hc. injection Hc as ->.
  assert (conversations st' !! other = conversations st !! other) as Hsame.
  { rewrite Hconv. by apply lookup_insert_ne. }
  split; [done|]. unfold stored_history. rewrite Hsame.
  destruct (conversations st !! other) as [l|] eqn:Ho; [|done].
  destruct (stored_elsewhere st c other l Hcons Ho Hne) as [Hlt Hl].
  unfold contents. by rewrite Hframe.
Qed.

Lemma request_leaves_other_conversations_witness :
  exists response st' trace,
    process_query (Scenario.healthy "elogio" "Gracias a ti!")
      (Scenario.ask (Some "c2") "Excelente servicio") Scenario.greeted
    = (inr response, st', trace)
    /\ stored_history st' "c1" = stored_history Scenario.greeted "c1".
Proof.
  destruct (process_query _ _ _) as [[[e|r] s] t] eqn:H;
    [by vm_compute in H|].
  exists r, s, t. split; [reflexivity|].
  refine (proj2 (request_leaves_other_conversations _ _ Scenario.greeted
    r s t "c2" "c1" _ H _ _)).
  - exact consistent_greeted.
  - vm_compute in H. by injection H as <- _ _.
  - discriminate.
Defined.

(** X7. On such a state, the history a successful request leaves under
    the id it reports is the history stored before, then what the services
    appended, then the request's query and the returned answer as the last
    two turns: earlier turns are neither removed nor reordered, and the
    last stored turn is the answer the caller got. *)
Theorem request_appends_its_pair_last
  env request st response st' trace reported :
  consistent st ->
  process_query env request st = (inr response, st', trace) ->
  QueryResponse.conversation_id response = Some reported ->
  exists by_services,
    stored_history st' reported
    = stored_history st reported ++ by_services
      ++ [user_turn (QueryRequest.query request);
          assistant_turn (QueryResponse.answer response)].
Proof.
  intros Hcons H Hrep.
  pose proof (paired_well_formed st (proj2 Hcons)) as Hwf.
  destruct (conversation_id_or_uuid4 env request) as [e|c] eqn:Hid.
  { by rewrite (process_query_without_id _ _ _ _ Hid) in H. }
  destruct (request_effect env request st c Hwf Hid)
    as (r & s & t & ext & H' & Hc & _ & Hconv & _ & Hh & _).
  rewrite H in H'. injection H' as <- <- <-.
  rewrite Hrep in Hc. injection Hc as ->.
  exists ext. apply (stored_history_lookup _ _ (history_loc st c)); [|done].
  rewrite Hconv. apply lookup_insert_eq.
Qed.

Lemma request_appends_its_pair_last_witness :
  exists response st' trace by_services,
    process_query (Scenario.healthy "elogio" "Gracias a ti!")
      (Scenario.ask (Some "c1") "Excelente servicio") initial_state
    = (inr response, st', trace)
    /\ stored_history st' "c1"
       = stored_history initial_state "c1" ++ by_services
         ++ [user_turn "Excelente servicio";
             assistant_turn (QueryResponse.answer response)].
Proof.
  destruct (process_query _ _ _) as [[[e|r] s] t] eqn:H;
    [by vm_compute in H|].
  assert (QueryResponse.conversation_id r = Some "c1") as Hc.
  { vm_compute in H. by injection H as <- _ _. }
  destruct (request_appends_its_pair_last _ _ _ _ _ _ "c1"
              consistent_initial H Hc) as [ext Hext].
  by exists r, s, t, ext.
Defined.

(** ** Invariants of the store *)

Lemma consistent_process_query env request st :
  consistent st -> consistent (process_query env request st).1.2.
Proof.
  intros Hcons.
  pose proof (paired_well_formed st (proj2 Hcons)) as Hwf.
  destruct (conversation_id_or_uuid4 env request) as [e|c] eqn:Hid.
  { by rewrite (process_query_without_id _ _ _ _ Hid). }
  destruct (request_effect env request st c Hwf Hid)
    as (r & s & t & ext & -> & _ & _ & Hconv & Hframe & Hh & Hext & _).
  cbn [fst snd]. destruct Hcons as [Hu Hp]. split.
  - intros c1 c2 l. rewrite Hconv.
    intros [[<- <-]|[Hn1 H1]]%lookup_insert_Some
           [[<- Hl]|[Hn2 H2]]%lookup_insert_Some; [done|..].
    + by destruct (stored_elsewhere st c c2 _ (conj Hu Hp) H2).
    + subst l. by destruct (stored_elsewhere st c c1 _ (conj Hu Hp) H1).
    + by eapply Hu.
  - intros c1 l. rewrite Hconv.
    intros [[<- <-]|[Hn1 H1]]%lookup_insert_Some.
    + rewrite Hh. unfold stored_history in *.
      destruct (conversations st !! c) as [l0|] eqn:Hc.
      * destruct (Hp c l0 Hc) as (q & m & a & Hl0).
        unfold contents. rewrite Hl0. cbn [default].
        exists q, (m ++ [assistant_turn a] ++ ext
                     ++ [user_turn (QueryRequest.query request)]),
          (QueryResponse.answer r).
        f_equal. cbn. f_equal.
        rewrite <- !app_assoc. cbn. by rewrite <- !app_assoc.
      * rewrite (Hext eq_refl). by eexists _, [], _.
    + destruct (stored_elsewhere st c c1 _ (conj Hu Hp) H1 (not_eq_sym Hn1))
        as [Hlt Hl].
      rewrite (Hframe _ Hlt Hl). by apply (Hp c1).
Qed.

Lemma consistent_delete_conversation c st :
  consistent st -> consistent (delete_conversation c st).1.2.
Proof.
  intros [Hu Hp]. unfold delete_conversation.
  destruct (conversations st !! c) as [l|] eqn:Hc; [|done].
  cbn. unfold consistent, unshared, paired, removed.
  cbn [conversations heap]. split.
  - intros c1 c2 l1 [_ H1]%lookup_delete_Some [_ H2]%lookup_delete_Some.
    by eapply Hu.
  - intros c1 l1 [_ H1]%lookup_delete_Some. by apply (Hp c1).
Qed.

(** X8. Whatever sequence of queries and deletions the process has
    served since it started, and whatever the outside services did, no two
    conversation ids share a list object and every stored history is
    non-empty, opens with a user turn and closes with an assistant turn. *)
Theorem reachable_states_are_consistent (ops : list Operation) :
  consistent (perform_all ops initial_state).
Proof.
  unfold perform_all.
  assert (forall st, consistent st -> consistent (foldl perform st ops))
    as Hall.
  { induction ops as [|op ops IH]; intros st Hst; [done|].
    cbn [foldl]. apply IH. destruct op as [env request|c]; cbn [perform].
    - by apply consistent_process_query.
    - by apply consistent_delete_conversation. }
  apply Hall, consistent_initial.
Qed.

(** ** How a history grows over the requests of one conversation *)

Lemma serve_cons env request rest st :
  serve ((env, request) :: rest) st
  = ((process_query env request st).1.1
       :: (serve rest (process_query env request st).1.2).1,
     (serve rest (process_query env request st).1.2).2).
Proof.
  cbn [serve]. destruct (process_query env request st) as [[r s] t].
  cbn [fst snd]. by destruct (serve rest s).
Qed.

Lemma supplied_id env request c :
  QueryRequest.conversation_id request = Some c -> c ≠ "" ->
  conversation_id_or_uuid4 env request = inr c.
Proof.
  intros Hc Hne. unfold conversation_id_or_uuid4. rewrite Hc. by destruct c.
Qed.

(** One more request on a stored conversation. *)
Lemma request_on_stored env request st c :
  consistent st ->
  QueryRequest.conversation_id request = Some c -> c ≠ "" ->
  is_Some (conversations st !! c) ->
  (exists response, (process_query env request st).1.1 = inr response)
  /\ is_Some (conversations (process_query env request st).1.2 !! c)
  /\ length (stored_history (process_query env request st).1.2 c)
     = length (stored_history st c) + turns_added env.
Proof.
  intros Hcons Hc Hne [l Hl].
  pose proof (paired_well_formed st (proj2 Hcons)) as Hwf.
  destruct (request_effect env request st c Hwf (supplied_id env _ _ Hc Hne))
    as (r & s & t & ext & -> & _ & _ & Hconv & _ & Hh & _ & Hext).
  cbn [fst snd]. split; [by eexists|].
  assert (conversations s !! c = Some (history_loc st c)) as Hs.
  { rewrite Hconv. apply lookup_insert_eq. }
  split; [by eexists|].
  rewrite (stored_history_lookup _ _ _ _ Hs Hh).
  rewrite !length_app. cbn [length]. rewrite <- Hext; [lia|].
  destruct (proj2 Hcons c l Hl) as (q & m & a & Hq).
  by rewrite (stored_history_lookup _ _ _ _ Hl Hq).
Qed.

Lemma serve_on_stored requests st c :
  consistent st -> c ≠ "" ->
  is_Some (conversations st !! c) ->
  Forall (fun er => QueryRequest.conversation_id er.2 = Some c) requests ->
  Forall (fun r => exists response, r = inr response) (serve requests st).1
  /\ length (stored_history (serve requests st).2 c)
     = length (stored_history st c)
       + sum_list ((fun er => turns_added er.1) <$> requests).
Proof.
  intros Hcons Hne Hin Hall. revert st Hcons Hin.
  induction Hall as [|[env request] rest Hc _ IH]; intros st Hcons Hin.
  { cbn. split; [constructor|lia]. }
  rewrite serve_cons. cbn [fst snd] in *.
  destruct (request_on_stored env request st c Hcons Hc Hne Hin)
    as (Hok & Hin' & Hlen).
  destruct (IH _ (consistent_process_query env request st Hcons) Hin')
    as [Hoks Hlens].
  split; [by constructor|].
  rewrite Hlens, Hlen. cbn [fmap list_fmap sum_list sum_list_with fst].
  unfold id. lia.
Qed.

(** X9. When requests that all carry the same non-empty id are served
    one after the other from a state where that id is not stored, the
    history then stored under the id has 2 turns for the first request
    plus, for each later one, 5 turns if it was classified informacoes and
    4 otherwise: between 4N - 2 and 5N - 3 turns after N requests. *)
Theorem turns_after_requests first rest c st :
  consistent st -> conversations st !! c = None -> c <> "" ->
  Forall (fun er => QueryRequest.conversation_id er.2 = Some c)
    (first :: rest) ->
  length (stored_history (serve (first :: rest) st).2 c)
  = 2 + sum_list ((fun er => turns_added er.1) <$> rest)
  /\ 2 + 4 * length rest
     <= length (stored_history (serve (first :: rest) st).2 c)
     <= 2 + 5 * length rest.
Proof.
  intros Hcons Hnew Hne Hall. destruct first as [env request].
  apply Forall_cons in Hall as [Hc Hall]. cbn [snd] in Hc.
  rewrite serve_cons. cbn [fst snd].
  pose proof (paired_well_formed st (proj2 Hcons)) as Hwf.
  pose proof (consistent_process_query env request st Hcons) as Hcons'.
  destruct (request_effect env request st c Hwf (supplied_id env _ _ Hc Hne))
    as (r & s & t & ext & Hq & _ & _ & Hconv & _ & Hh & Hext & _).
  rewrite Hq in *. cbn [fst snd] in *.
  assert (stored_history st c = []) as Hempty.
  { unfold stored_history. by rewrite Hnew. }
  rewrite Hempty, (Hext Hempty) in Hh. cbn [app] in Hh.
  assert (conversations s !! c = Some (history_loc st c)) as Hs.
  { rewrite Hconv. apply lookup_insert_eq. }
  destruct (serve_on_stored rest s c Hcons' Hne (mk_is_Some _ _ Hs) Hall)
    as [_ Hlen].
  rewrite (stored_history_lookup _ _ _ _ Hs Hh) in Hlen. cbn [length] in Hlen.
  split; [done|].
  rewrite Hlen. clear. induction rest as [|[env request] rest IH]; cbn.
  - lia.
  - unfold turns_added at 1 3. case_bool_decide; lia.
Qed.

Lemma turns_after_requests_witness :
  length (stored_history
            (serve Scenario.two_requests initial_state).2 "c1")
  = 2 + (turns_added (Scenario.healthy "elogio" "Gracias a ti!") + 0).
Proof.
  refine (proj1 (turns_after_requests
    (Scenario.healthy "saudacao" "Hola Maria!",
     Scenario.ask (Some "c1") "Hola, buenas tardes")
    [(Scenario.healthy "elogio" "Gracias a ti!",
      Scenario.ask (Some "c1") "Excelente servicio")]
    "c1" initial_state consistent_initial _ _ _)).
  - reflexivity.
  - discriminate.
  - repeat constructor.
Defined.

(** ** Deletion and what follows it *)

(** X10. After a deletion of an id, stored or not, a successful request
    carrying that id starts over: it reports the id, and the history then
    stored under the id is exactly its own query and answer. *)
Theorem request_after_delete_starts_over
  env request st c response st' trace :
  QueryRequest.conversation_id request = Some c -> c <> "" ->
  process_query env request (delete_conversation c st).1.2
  = (inr response, st', trace) ->
  QueryResponse.conversation_id response = Some c
  /\ stored_history st' c
     = [user_turn (QueryRequest.query request);
        assistant_turn (QueryResponse.answer response)].
Proof.
  intros Hc Hne H.
  set (st1 := (delete_conversation c st).1.2) in *.
  assert (conversations st1 !! c = None) as Hgone.
  { unfold st1, delete_conversation.
    destruct (conversations st !! c) as [l|] eqn:Hl; [|done].
    cbn. apply lookup_delete_eq. }
  destruct (process_query_routed env request st1 c (supplied_id env _ _ Hc Hne))
    as (a & n & b & _ & H').
  rewrite H in H'. unfold cycle_outcome in H'. injection H' as -> -> ->.
  split; [reflexivity|]. cbn [QueryResponse.answer].
  destruct (cycle_state_fresh st1 c (QueryRequest.query request) a n Hgone)
    as [_ Hf].
  pose proof (cycle_state_stored st1 c (QueryRequest.query request) a n) as Hs.
  cbv zeta in Hf, Hs. by apply (stored_history_lookup _ _ _ _ Hs Hf).
Qed.

Lemma request_after_delete_starts_over_witness :
  exists response st' trace,
    process_query (Scenario.healthy "elogio" "Gracias a ti!")
      (Scenario.ask (Some "c1") "Excelente servicio")
      (delete_conversation "c1" Scenario.greeted).1.2
    = (inr response, st', trace)
    /\ QueryResponse.conversation_id response = Some "c1"
    /\ stored_history st' "c1"
       = [user_turn "Excelente servicio";
          assistant_turn (QueryResponse.answer response)].
Proof.
  destruct (process_query _ _ _) as [[[e|r] s] t] eqn:H;
    [by vm_compute in H|].
  exists r, s, t. split; [reflexivity|].
  apply (request_after_delete_starts_over
           (Scenario.healthy "elogio" "Gracias a ti!")
           (Scenario.ask (Some "c1") "Excelente servicio")
           Scenario.greeted "c1" r s t); [reflexivity|discriminate|exact H].
Defined.

(** X11. A deletion touches one id only: the history stored under any
    other id is as before; and deleting the same id again right away
    always raises the 404, so a deletion cannot be repeated without
    error. *)
Theorem delete_conversation_is_local c st :
  (forall other,
     other ≠ c ->
     conversations (delete_conversation c st).1.2 !! other
     = conversations st !! other
     /\ stored_history (delete_conversation c st).1.2 other
        = stored_history st other)
  /\ delete_conversation c (delete_conversation c st).1.2
     = (inl {| status_code := 404; detail := "Conversation not found" |},
        (delete_conversation c st).1.2, []).
Proof.
  assert (conversations (delete_conversation c st).1.2
          = delete c (conversations st)
          /\ heap (delete_conversation c st).1.2 = heap st) as [Hconv Hheap].
  { unfold delete_conversation.
    destruct (conversations st !! c) as [l|] eqn:Hl; [done|].
    cbn. split; [|done]. symmetry. by apply delete_id. }
  split.
  - intros other Hne.
    assert (conversations (delete_conversation c st).1.2 !! other
            = conversations st !! other) as Hsame.
    { rewrite Hconv. by apply lookup_delete_ne. }
    split; [done|]. unfold stored_history, contents.
    by rewrite Hsame, Hheap.
  - unfold delete_conversation at 1. rewrite Hconv.
    by rewrite lookup_delete_eq.
Qed.

Lemma delete_conversation_is_local_witness :
  stored_history (delete_conversation "c2" Scenario.greeted).1.2 "c1"
  = stored_history Scenario.greeted "c1".
Proof.
  refine (proj2 (proj1 (delete_conversation_is_local "c2" Scenario.greeted)
                   "c1" _)).
  discriminate.
Defined.

(** ** The prompt of the grounded answer *)

Lemma replace_from_absent old new s :
  occurs old s = false -> replace_from old new s 0 = s.
Proof.
  induction s as [|c rest IH]; [done|].
  cbn [occurs replace_from].
  intros [Hp Hrest]%orb_false_elim. rewrite Hp. by rewrite IH.
Qed.

Lemma replace_absent old new s :
  occurs old s = false -> replace old new s = s.
Proof.
  intros H. destruct old as [|c old].
  - by destruct s.
  - by apply replace_from_absent.
Qed.

(** X12. The system prompt sent for the grounded answer is one fixed
    text, whatever the query and the retrieved context: the f-string has
    already turned the doubled braces of the two placeholders into single
    ones, the two [replace] calls look for the doubled form and find
    nothing, and the prompt keeps the placeholders as they are, [{query}]
    and [{context}]. *)
Theorem rag_prompt_ignores_query_and_context :
  exists system_prompt,
    f_string system_prompt_literal = Some system_prompt
    /\ (forall query context,
          system_prompt_filled query context = Some system_prompt)
    /\ occurs "{query}" system_prompt = true
    /\ occurs "{context}" system_prompt = true.
Proof.
  destruct (f_string system_prompt_literal) as [p|] eqn:Hp;
    [|by vm_compute in Hp].
  exists p. split; [done|].
  assert (occurs "{{query}}" p = false /\ occurs "{{context}}" p = false
          /\ occurs "{query}" p = true /\ occurs "{context}" p = true)
    as (Hq & Hc & Hq1 & Hc1).
  { vm_compute in Hp. injection Hp as <-. by vm_compute. }
  split; [|done].
  intros query context. unfold system_prompt_filled. rewrite Hp.
  cbn [fmap option_fmap option_map].
  by rewrite (replace_absent _ _ _ Hq), (replace_absent _ _ _ Hc).
Qed.

(** ** Strings, their ends and their characters *)

Lemma string_app_cons a s t : String a s +:+ t = String a (s +:+ t).
Proof. reflexivity. Qed.

Lemma string_app_nil_r s : s +:+ "" = s.
Proof.
  induction s as [|a s IH]; [done|]. by rewrite string_app_cons, IH.
Qed.

Lemma string_app_assoc s t u : (s +:+ t) +:+ u = s +:+ t +:+ u.
Proof.
  induction s as [|a s IH]; [done|]. by rewrite !string_app_cons, IH.
Qed.

Lemma string_length_app s t :
  String.length (s +:+ t) = String.length s + String.length t.
Proof.
  induction s as [|a s IH]; [done|]. rewrite string_app_cons. cbn.
  by rewrite IH.
Qed.

Lemma string_rev_app_spec s t : String.rev_app s t = String.rev s +:+ t.
Proof.
  revert t. induction s as [|a s IH]; intros t; [done|].
  unfold String.rev. cbn [String.rev_app].
  by rewrite (IH (String a t)), (IH (String a "")), string_app_assoc.
Qed.

Lemma string_rev_cons a s : String.rev (String a s) = String.rev s +:+ String a "".
Proof. unfold String.rev at 1. cbn. apply string_rev_app_spec. Qed.

Lemma string_rev_app s t : String.rev (s +:+ t) = String.rev t +:+ String.rev s.
Proof.
  induction s as [|a s IH].
  - by rewrite string_app_nil_r.
  - by rewrite string_app_cons, !string_rev_cons, IH, string_app_assoc.
Qed.

Lemma string_rev_involutive s : String.rev (String.rev s) = s.
Proof.
  induction s as [|a s IH]; [done|].
  by rewrite string_rev_cons, string_rev_app, IH.
Qed.

Lemma string_length_rev s : String.length (String.rev s) = String.length s.
Proof.
  induction s as [|a s IH]; [done|].
  rewrite string_rev_cons, string_length_app, IH. cbn. lia.
Qed.

Lemma has_app c s t : has c (s +:+ t) <-> has c s \/ has c t.
Proof.
  induction s as [|a s IH].
  - cbn. tauto.
  - rewrite string_app_cons. cbn. tauto.
Qed.

Lemma has_rev c s : has c (String.rev s) <-> has c s.
Proof.
  induction s as [|a s IH]; [done|].
  rewrite string_rev_cons, has_app, IH. cbn. tauto.
Qed.

(** ** Dropping tokens *)

Lemma drop_prefix_Some token s rest :
  drop_prefix token s = Some rest <-> s = token +:+ rest.
Proof.
  revert s. induction token as [|a token IH]; intros s.
  - cbn. change ("" +:+ rest) with rest. split; congruence.
  - destruct s as [|b s]; cbn; [done|].
    rewrite string_app_cons.
    destruct (Ascii.eqb_spec a b) as [->|Hne].
    + rewrite IH. split; congruence.
    + split; [done|]. congruence.
Qed.

Lemma drop_any_Some tokens s rest :
  drop_any tokens s = Some rest ->
  exists token, token ∈ tokens /\ s = token +:+ rest.
Proof.
  induction tokens as [|t tokens IH]; [done|]. cbn.
  destruct (drop_prefix t s) as [r|] eqn:Ht.
  - intros [= ->]. exists t. split; [left|]. by apply drop_prefix_Some.
  - intros (t' & Hin & ->)%IH. exists t'. split; [by right|done].
Qed.

Lemma drop_any_None tokens s :
  drop_any tokens s = None <-> ~ starts_with_any tokens s.
Proof.
  split.
  - intros Hnone (t & r & Hin & ->).
    induction Hin as [t tokens|t t' tokens Hin IH]; cbn in Hnone.
    + by rewrite (proj2 (drop_prefix_Some t _ r) eq_refl) in Hnone.
    + destruct (drop_prefix t' (t +:+ r)); [done|]. by apply IH.
  - intros Hno. destruct (drop_any tokens s) as [r|] eqn:Hd; [|done].
    destruct (drop_any_Some _ _ _ Hd) as (t & Hin & ->).
    destruct Hno. by exists t, r.
Qed.

Lemma strip_left_suffix tokens fuel s :
  exists dropped, s = dropped +:+ strip_left tokens fuel s.
Proof.
  revert s. induction fuel as [|fuel IH]; intros s; [by exists ""|].
  cbn. destruct (drop_any tokens s) as [r|] eqn:Hd; [|by exists ""].
  destruct (drop_any_Some _ _ _ Hd) as (t & _ & ->).
  destruct (IH r) as [d Hr]. exists (t +:+ d).
  by rewrite string_app_assoc, <- Hr.
Qed.

Lemma strip_left_done tokens fuel s :
  Forall (fun token => token <> "") tokens ->
  String.length s <= fuel ->
  drop_any tokens (strip_left tokens fuel s) = None.
Proof.
  intros Hne. revert s. induction fuel as [|fuel IH]; intros s Hlen.
  - destruct s; [|cbn in Hlen; lia]. cbn.
    apply drop_any_None. intros (t & r & Hin & Heq).
    rewrite Forall_forall in Hne. apply (Hne t Hin).
    by destruct t.
  - cbn. destruct (drop_any tokens s) as [r|] eqn:Hd; [|done].
    apply IH. destruct (drop_any_Some _ _ _ Hd) as (t & Hin & ->).
    rewrite Forall_forall in Hne. specialize (Hne t Hin).
    rewrite string_length_app in Hlen. destruct t; [done|]. cbn in Hlen. lia.
Qed.

Lemma strip_left_id tokens fuel s :
  drop_any tokens s = None -> strip_left tokens fuel s = s.
Proof. intros H. destruct fuel; [done|]. cbn. by rewrite H. Qed.

(** ** [strip] *)

Lemma whitespace_nonempty : Forall (fun token => token <> "") whitespace.
Proof. apply (bool_decide_unpack _). by vm_compute. Qed.

Lemma reversed_whitespace_nonempty :
  Forall (fun token => token <> "") (String.rev <$> whitespace).
Proof. apply (bool_decide_unpack _). by vm_compute. Qed.

Lemma lstrip_spec s :
  (exists dropped, s = dropped +:+ lstrip s)
  /\ ~ starts_with_any whitespace (lstrip s).
Proof.
  split; [apply strip_left_suffix|].
  apply drop_any_None, strip_left_done; [apply whitespace_nonempty|done].
Qed.

Lemma rstrip_spec s :
  (exists dropped, s = rstrip s +:+ dropped)
  /\ ~ ends_with_any whitespace (rstrip s).
Proof.
  unfold rstrip.
  set (y := strip_left (String.rev <$> whitespace) (String.length s)
              (String.rev s)).
  split.
  - destruct (strip_left_suffix (String.rev <$> whitespace)
                (String.length s) (String.rev s)) as [d Hd].
    fold y in Hd. exists (String.rev d).
    by rewrite <- string_rev_app, <- Hd, string_rev_involutive.
  - intros (t & r & Hin & Heq).
    assert (drop_any (String.rev <$> whitespace) y = None) as Hnone.
    { apply strip_left_done; [apply reversed_whitespace_nonempty|].
      by rewrite string_length_rev. }
    apply drop_any_None in Hnone. apply Hnone.
    exists (String.rev t), (String.rev r). split.
    + by apply list_elem_of_fmap_2.
    + by rewrite <- string_rev_app, <- Heq, string_rev_involutive.
Qed.

Lemma strip_spec s :
  (exists before after, s = before +:+ strip s +:+ after)
  /\ ~ starts_with_any whitespace (strip s)
  /\ ~ ends_with_any whitespace (strip s).
Proof.
  unfold strip.
  destruct (lstrip_spec s) as [[before Hb] Hstart].
  destruct (rstrip_spec (lstrip s)) as [[after Ha] Hend].
  split; [|split; [|done]].
  - exists before, after. by rewrite <- Ha.
  - intros (t & r & Hin & Heq). apply Hstart.
    exists t, (r +:+ after). split; [done|].
    by rewrite Ha, Heq, string_app_assoc at 1.
Qed.

Lemma strip_has c s : has c (strip s) -> has c s.
Proof.
  destruct (strip_spec s) as [(before & after & Hs) _].
  intros H. rewrite Hs, !has_app. tauto.
Qed.

Lemma strip_id s :
  ~ starts_with_any whitespace s -> ~ ends_with_any whitespace s ->
  strip s = s.
Proof.
  intros Hstart Hend. unfold strip, lstrip.
  rewrite strip_left_id by by apply drop_any_None.
  unfold rstrip. rewrite strip_left_id; [apply string_rev_involutive|].
  apply drop_any_None. intros (t' & r & Hin & Heq).
  apply list_elem_of_fmap in Hin as (t & -> & Hin). apply Hend.
  exists t, (String.rev r). split; [done|].
  by rewrite <- (string_rev_involutive t), <- string_rev_app, <- Heq,
    string_rev_involutive.
Qed.

(** ** [split] *)

Lemma split_on_pieces sep s :
  Forall (fun piece => ~ has sep piece) (split_on sep s).
Proof.
  induction s as [|c rest IH]; cbn.
  - constructor; [cbn; tauto|constructor].
  - destruct (Ascii.eqb_spec c sep) as [->|Hne].
    + constructor; [cbn; tauto|done].
    + destruct (split_on sep rest) as [|piece pieces].
      * constructor; [cbn; tauto|constructor].
      * apply Forall_cons in IH as [Hp Hps]. constructor; [|done].
        cbn. tauto.
Qed.

Lemma split_on_absent sep x : ~ has sep x -> split_on sep x = [x].
Proof.
  induction x as [|c x IH]; [done|]. cbn. intros Hno.
  destruct (Ascii.eqb_spec c sep) as [->|Hne]; [tauto|].
  rewrite IH by tauto. done.
Qed.

Lemma split_on_app sep x rest :
  ~ has sep x ->
  split_on sep (x +:+ String sep rest) = x :: split_on sep rest.
Proof.
  induction x as [|c x IH]; intros Hno.
  - change ("" +:+ String sep rest) with (String sep rest). cbn.
    by rewrite Ascii.eqb_refl.
  - rewrite string_app_cons. cbn in *.
    destruct (Ascii.eqb_spec c sep) as [->|Hne]; [tauto|].
    rewrite IH by tauto. done.
Qed.

Lemma split_on_concat sep ids :
  ids <> [] -> Forall (fun ds => ~ has sep ds) ids ->
  split_on sep (String.concat (String sep "") ids) = ids.
Proof.
  intros Hne Hall. induction Hall as [|x ids Hx Hall IH]; [done|].
  destruct ids as [|y ids].
  - cbn. by apply split_on_absent.
  - change (String.concat (String sep "") (x :: y :: ids))
      with (x +:+ String sep "" +:+ String.concat (String sep "") (y :: ids)).
    change (String sep "" +:+ ?s) with (String sep s).
    rewrite split_on_app by done. by rewrite IH.
Qed.

(** ** The dataset ids *)

Lemma parse_dataset_ids_eq s :
  parse_dataset_ids s
  = strip <$> filter (fun ds => strip ds <> "") (split_on "," s).
Proof. destruct s; [by vm_compute|done]. Qed.

(** X13. Every dataset id read from the setting is non-empty, holds no
    comma and neither begins nor ends with a whitespace character. *)
Theorem parsed_dataset_ids_are_clean DATASET_IDS :
  Forall clean (parse_dataset_ids DATASET_IDS).
Proof.
  rewrite parse_dataset_ids_eq. apply Forall_fmap, Forall_forall.
  intros ds [Hne Hin]%list_elem_of_filter. cbn.
  pose proof (split_on_pieces "," DATASET_IDS) as Hp.
  rewrite Forall_forall in Hp.
  destruct (strip_spec ds) as (_ & Hstart & Hend).
  split; [done|]. split; [|done].
  intros Hc%strip_has. by apply (Hp ds).
Qed.

Lemma kept_as_they_are ids :
  Forall (fun ds => ds <> "" /\ strip ds = ds) ids ->
  strip <$> filter (fun ds => strip ds <> "") ids = ids.
Proof.
  induction 1 as [|ds ids [Hne Hfix] _ IH]; [done|].
  rewrite filter_cons_True by by rewrite Hfix.
  cbn [fmap list_fmap]. rewrite Hfix. f_equal. exact IH.
Qed.

(** X14. Writing clean ids with commas between them and reading the
    setting back gives the same ids; hence reading, writing and reading
    again changes nothing. *)
Theorem dataset_ids_round_trip :
  (forall ids,
     Forall clean ids ->
     parse_dataset_ids (String.concat "," ids) = ids)
  /\ (forall DATASET_IDS,
        parse_dataset_ids
          (String.concat "," (parse_dataset_ids DATASET_IDS))
        = parse_dataset_ids DATASET_IDS).
Proof.
  assert (forall ids, Forall clean ids ->
            parse_dataset_ids (String.concat "," ids) = ids) as Hround.
  { intros ids Hclean. rewrite parse_dataset_ids_eq.
    destruct (decide (ids = [])) as [->|Hne]; [by vm_compute|].
    rewrite split_on_concat; [|done|].
    - apply kept_as_they_are. eapply Forall_impl; [exact Hclean|].
      intros ds (Hds & _ & Hs & He). split; [done|]. by apply strip_id.
    - eapply Forall_impl; [exact Hclean|]. by intros ds (_ & Hc & _). }
  split; [done|].
  intros s. apply Hround, parsed_dataset_ids_are_clean.
Qed.

Lemma dataset_ids_round_trip_witness :
  parse_dataset_ids (String.concat "," ["kb-products"; "kb faq"])
  = ["kb-products"; "kb faq"].
Proof.
  apply (proj1 dataset_ids_round_trip).
  assert (forall ds,
            ds <> "" -> ~ has "," ds ->
            drop_any whitespace ds = None ->
            drop_any (String.rev <$> whitespace) (String.rev ds) = None ->
            clean ds) as Hclean.
  { intros ds Hne Hc Hs He. split; [done|]. split; [done|].
    split; [by apply drop_any_None|].
    intros (t & r & Hin & ->). apply drop_any_None in He. apply He.
    exists (String.rev t), (String.rev r).
    split; [by apply list_elem_of_fmap_2|]. by apply string_rev_app. }
  repeat constructor; apply Hclean; try discriminate; try reflexivity;
    cbn; intuition discriminate.
Defined.
